(** * custom_shell: the execution and job-control core, embedded in Rocq

    Two programs of the repository are modelled, in three modules.

    - [Classifier]: the command classifier of [unified_shell.cpp]
      ([CommandDetector::detectCommandType] and the static tables of
      [WindowsExecutor::isWindowsCommand], [LinuxExecutor::isLinuxCommand]
      and [CommandDetector::isBuiltinCommand]).
    - [Shell]: the POSIX shell ([tokenize], [splitByPipe],
      [handleRedirection], [handleBuiltins], the job table with
      [sigchldHandler] and [handleJobBuiltins], [levenshtein], [suggest],
      [executePipeline], [runCommand], [main]).
    - [Unified]: the rest of the unified shell (the executors with
      [isAvailable], [canHandleCommand], [buildCommand] and [execute],
      [selectExecutor], [ShellConfig::loadConfig] and [saveConfig], the
      history list and its file, [handleBuiltins], [executeCommand], the
      constructor and [initialize]).

    A process is modelled by the sequence of system calls and stream
    writes it issues ([event]); what the kernel answers is read from an
    environment record ([Env]).  C++ [int] and [pid_t] values are [Z]. *)

From stdpp Require Import base strings list gmap sorting.
From Stdlib Require Import ZArith Ascii.

Open Scope string_scope.

(** ** The command classifier of [unified_shell.cpp] *)
Module Classifier.

(** [enum class CommandMode] of [unified_shell.hpp]. *)
Inductive CommandMode : Set := WINDOWS | LINUX | AUTO_DETECT.

(** The [static const std::unordered_set<std::string>] of
    [WindowsExecutor::isWindowsCommand]. *)
Definition windowsCommands : gset string :=
  {[ "dir"; "copy"; "move"; "del"; "md"; "rd"; "cd"; "type"; "cls"; "echo";
     "set"; "path"; "prompt"; "title"; "color"; "date"; "time"; "ver";
     "vol"; "tree"; "attrib"; "comp"; "fc"; "find"; "findstr"; "sort";
     "more"; "xcopy"; "robocopy"; "tasklist"; "taskkill"; "net"; "ping";
     "ipconfig"; "netstat"; "systeminfo"; "driverquery"; "reg"; "sc";
     "powershell"; "cmd"; "notepad"; "calc"; "mspaint"; "explorer" ]}.

(** The table of [LinuxExecutor::isLinuxCommand]. *)
Definition linuxCommands : gset string :=
  {[ "ls"; "cat"; "grep"; "awk"; "sed"; "sort"; "uniq"; "head"; "tail";
     "wc"; "cut"; "tr"; "find"; "locate"; "which"; "whereis"; "file";
     "chmod"; "chown"; "chgrp"; "umask"; "ln"; "cp"; "mv"; "rm"; "mkdir";
     "rmdir"; "pwd"; "cd"; "pushd"; "popd"; "du"; "df"; "mount"; "umount";
     "ps"; "top"; "htop"; "kill"; "killall"; "jobs"; "fg"; "bg"; "nohup";
     "screen"; "tmux"; "man"; "info"; "less"; "more"; "nano"; "vim"; "emacs";
     "tar"; "gzip"; "gunzip"; "zip"; "unzip"; "curl"; "wget"; "ssh"; "scp";
     "rsync"; "ping"; "netstat"; "ifconfig"; "iptables"; "systemctl";
     "service" ]}.

(** The table of [CommandDetector::isBuiltinCommand]. *)
Definition builtins : gset string :=
  {[ "help"; "exit"; "quit"; "mode"; "config"; "status"; "history";
     "clear"; "cls" ]}.

(** [windowsCommands.find(command) != windowsCommands.end()];
    [CommandDetector::isWindowsCommand] reaches it through
    [WindowsExecutor::canHandleCommand]. *)
Definition isWindowsCommand (command : string) : bool :=
  bool_decide (command ∈ windowsCommands).

Definition isLinuxCommand (command : string) : bool :=
  bool_decide (command ∈ linuxCommands).

Definition isBuiltinCommand (command : string) : bool :=
  bool_decide (command ∈ builtins).

(** [CommandDetector::detectCommandType]: three tests in this order. *)
Definition detectCommandType (command : string) : CommandMode :=
  if isBuiltinCommand command then AUTO_DETECT
  else if isWindowsCommand command then WINDOWS
  else if isLinuxCommand command then LINUX
  else AUTO_DETECT.

End Classifier.

(** ** The POSIX shell *)
Module Shell.

(** *** Text *)

(** The character written ["\n"] in the source. *)
Definition NL : string := String "010"%char "".

(** [std::isspace] in the C locale: space, and the characters 9 to 13. *)
Definition isspace (c : ascii) : bool :=
  let n := nat_of_ascii c in
  Nat.eqb n 32 || (Nat.leb 9 n && Nat.leb n 13).

Definition isdigit (c : ascii) : bool :=
  let n := nat_of_ascii c in Nat.leb 48 n && Nat.leb n 57.

Definition is_empty (s : string) : bool :=
  match s with EmptyString => true | String _ _ => false end.

(** [s.push_back(c)] *)
Definition push_back (s : string) (c : ascii) : string :=
  s +:+ String c "".

(** [tokenize]: [while (ss >> tok) out.push_back(tok)].  [tok] is the
    token being extracted; white space ends it. *)
Fixpoint tokenize_from (tok line : string) : list string :=
  match line with
  | EmptyString => if is_empty tok then [] else [tok]
  | String c rest =>
      if isspace c
      then (if is_empty tok then tokenize_from "" rest
            else tok :: tokenize_from "" rest)
      else tokenize_from (push_back tok c) rest
  end.

Definition tokenize (line : string) : list string := tokenize_from "" line.

(** [splitByPipe]: [while (std::getline(ss, segment, '|'))].  A call of
    [getline] succeeds when it meets the delimiter, or when it has
    extracted at least one character before the end of the stream; so an
    empty segment at the very end is not produced. *)
Fixpoint splitByPipe_from (segment input : string) : list string :=
  match input with
  | EmptyString => if is_empty segment then [] else [segment]
  | String c rest =>
      if Ascii.eqb c "|"%char
      then segment :: splitByPipe_from "" rest
      else splitByPipe_from (push_back segment c) rest
  end.

Definition splitByPipe (input : string) : list string :=
  splitByPipe_from "" input.

(** [input.back()] and [input.pop_back()] *)
Fixpoint back (s : string) : option ascii :=
  match s with
  | EmptyString => None
  | String c EmptyString => Some c
  | String _ rest => back rest
  end.

Fixpoint pop_back (s : string) : string :=
  match s with
  | EmptyString => EmptyString
  | String _ EmptyString => EmptyString
  | String c rest => String c (pop_back rest)
  end.

(** *** [std::stoi] *)

Inductive exn : Set :=
| invalid_argument (what : string)
| out_of_range (what : string).

Definition INT_MIN : Z := (- 2 ^ 31)%Z.
Definition INT_MAX : Z := (2 ^ 31 - 1)%Z.

Fixpoint skip_space (s : string) : string :=
  match s with
  | String c rest => if isspace c then skip_space rest else s
  | EmptyString => s
  end.

(** Value of the longest prefix of decimal digits; [None] when the text
    does not start with a digit. *)
Fixpoint digits (s : string) (acc : option Z) : option Z :=
  match s with
  | String c rest =>
      if isdigit c
      then digits rest
             (Some (default 0 acc * 10 + (Z.of_nat (nat_of_ascii c) - 48)))%Z
      else acc
  | EmptyString => acc
  end.

(** [std::stoi(str)] is [strtol(str, &end, 10)]: leading white space, an
    optional sign, decimal digits, the rest ignored.  No digit:
    [std::invalid_argument]; a value that does not fit [int]:
    [std::out_of_range]. *)
Definition stoi (str : string) : exn + Z :=
  let s := skip_space str in
  let '(neg, s) :=
    match s with
    | String "-"%char rest => (true, rest)
    | String "+"%char rest => (false, rest)
    | _ => (false, s)
    end in
  match digits s None with
  | None => inl (invalid_argument "stoi")
  | Some v =>
      let v := if neg : bool then (- v)%Z else v in
      if (Z.leb INT_MIN v && Z.leb v INT_MAX)%bool then inr v
      else inl (out_of_range "stoi")
  end.

(** *** Processes, system calls and the kernel's answers *)

(** One operand of a [<<] chain. *)
Inductive chunk : Set :=
| Str (s : string)
| Num (n : Z).

(** What a process does, in order: system and library calls with their
    arguments (and result, where the code or a claim reads it) and the
    writes to [std::cout] and [std::cerr]. *)
Inductive event : Set :=
| EvPipe (ret : option (N * N))
| EvFork (ret : Z)
| EvDup2 (oldfd newfd : Z)
| EvClose (fd : Z)
| EvOpen (path : string) (flags mode ret : Z)
| EvExecvp (argv : list string) (err : option string)
| EvExit (status : Z)
| EvWait
| EvWaitpid (pid options : Z)
| EvKill (pid sig : Z)
| EvSigaction (sig : Z)
| EvChdir (dir : option string)
| EvPutenv (s : string)
| EvPerror (s err : string)
| EvCout (l : list chunk)
| EvCerr (l : list chunk)
| EvAddHistory (line : string)
| EvAppendHistory (line : string).

(** Constants of [<unistd.h>], [<fcntl.h>] and [<signal.h>], with their
    values on Linux. *)
Definition STDIN_FILENO : Z := 0.
Definition STDOUT_FILENO : Z := 1.
Definition O_RDONLY : Z := 0.
Definition O_WRONLY : Z := 1.
Definition O_CREAT : Z := 64.
Definition O_TRUNC : Z := 512.
Definition O_APPEND : Z := 1024.
Definition SIGCHLD : Z := 17.
Definition SIGCONT : Z := 18.

(** The answers of the kernel and of the file system.  The source tests
    none of the results of [pipe], [fork], [open], [dup2] and [close]. *)
Record Env : Type := {
  (** the [k]-th [pipe] of the shell: read and write descriptors, or
      failure *)
  sys_pipe : nat -> option (N * N);
  (** the [k]-th [fork] of the shell: the child's pid, or failure *)
  sys_fork : nat -> option positive;
  (** [open(path, flags, 0644)]: the descriptor, or failure *)
  sys_open : string -> Z -> option N;
  (** [execvp(argv[0], argv)]: [None] when the program starts, else
      [strerror(errno)] *)
  sys_execvp : list string -> option string;
  (** [chdir(dir)]: [None] on success, else [strerror(errno)] *)
  sys_chdir : option string -> option string;
  (** [getenv("HOME")] *)
  env_HOME : option string;
  (** lines of [~/.myshell_history] when the shell starts *)
  history_file : list string;
  (** what the uninitialised array [pipefds] holds *)
  stack_garbage : nat -> Z
}.

(** [struct Job]; the fields carry a prefix because [id] is the identity
    function of the library. *)
Record Job : Set := {
  job_id : Z;
  job_pid : Z;
  job_cmdline : string;
  job_running : bool
}.

(** How a run of a piece of code ends. *)
Inductive result (A : Type) : Type :=
| Ret (a : A)                    (* control reaches the end of the code *)
| Exited (status : Z)            (* [exit(status)] *)
| Replaced (argv : list string)  (* [execvp] succeeded *)
| Thrown (e : exn)               (* a C++ exception leaves the code *)
| Undefined (why : string).      (* undefined behaviour *)
Arguments Ret {A} a.
Arguments Exited {A} status.
Arguments Replaced {A} argv.
Arguments Thrown {A} e.
Arguments Undefined {A} why.

(** A forked child: its pid, what it did, how it ended. *)
Record Child : Type := {
  child_pid : Z;
  child_trace : list event;
  child_end : result unit
}.

(** The shell process: its globals ([jobs], [nextJobId], [history]), the
    events it has issued so far (oldest first), the children it has
    forked, and how many [pipe] and [fork] calls it has made. *)
Record World : Type := {
  jobs : list Job;
  nextJobId : Z;
  history : list string;
  trace : list event;
  children : list Child;
  npipe : nat;
  nfork : nat
}.

Definition set_jobs (js : list Job) (w : World) : World :=
  {| jobs := js; nextJobId := nextJobId w; history := history w;
     trace := trace w; children := children w;
     npipe := npipe w; nfork := nfork w |}.

Definition set_nextJobId (n : Z) (w : World) : World :=
  {| jobs := jobs w; nextJobId := n; history := history w;
     trace := trace w; children := children w;
     npipe := npipe w; nfork := nfork w |}.

Definition set_history (h : list string) (w : World) : World :=
  {| jobs := jobs w; nextJobId := nextJobId w; history := h;
     trace := trace w; children := children w;
     npipe := npipe w; nfork := nfork w |}.

Definition add_events (es : list event) (w : World) : World :=
  {| jobs := jobs w; nextJobId := nextJobId w; history := history w;
     trace := trace w ++ es; children := children w;
     npipe := npipe w; nfork := nfork w |}.

Definition add_child (c : Child) (w : World) : World :=
  {| jobs := jobs w; nextJobId := nextJobId w; history := history w;
     trace := trace w; children := children w ++ [c];
     npipe := npipe w; nfork := nfork w |}.

Definition count_pipe (w : World) : World :=
  {| jobs := jobs w; nextJobId := nextJobId w; history := history w;
     trace := trace w; children := children w;
     npipe := S (npipe w); nfork := nfork w |}.

Definition count_fork (w : World) : World :=
  {| jobs := jobs w; nextJobId := nextJobId w; history := history w;
     trace := trace w; children := children w;
     npipe := npipe w; nfork := S (nfork w) |}.

(** The memory image a child starts from: the parent's globals, nothing
    done yet. *)
Definition child_image (w : World) : World :=
  {| jobs := jobs w; nextJobId := nextJobId w; history := history w;
     trace := []; children := [];
     npipe := npipe w; nfork := nfork w |}.

(** Code that runs in a process. *)
Definition Proc (A : Type) : Type := World -> result A * World.

Definition ret {A} (a : A) : Proc A := fun w => (Ret a, w).

Definition bind {A B} (c : Proc A) (k : A -> Proc B) : Proc B :=
  fun w =>
    match c w with
    | (Ret a, w') => k a w'
    | (Exited st, w') => (Exited st, w')
    | (Replaced argv, w') => (Replaced argv, w')
    | (Thrown e, w') => (Thrown e, w')
    | (Undefined why, w') => (Undefined why, w')
    end.

Notation "x <- c1 ;; c2" := (bind c1 (fun x => c2))
  (at level 100, c1 at next level, c2 at level 200, right associativity,
   only parsing).
Notation "c1 >> c2" := (bind c1 (fun _ => c2))
  (at level 100, c2 at level 200, right associativity, only parsing).

Definition emit (e : event) : Proc unit :=
  fun w => (Ret tt, add_events [e] w).

Definition get {A} (f : World -> A) : Proc A := fun w => (Ret (f w), w).

Definition modify (f : World -> World) : Proc unit :=
  fun w => (Ret tt, f w).

Definition throw {A} (e : exn) : Proc A := fun w => (Thrown e, w).

Definition undefined {A} (why : string) : Proc A :=
  fun w => (Undefined why, w).

(** [for (x : l) body] *)
Fixpoint for_each {A} (l : list A) (body : A -> Proc unit) : Proc unit :=
  match l with
  | [] => ret tt
  | x :: l' => body x >> for_each l' body
  end.

(** A [for] loop that updates a local variable [s]. *)
Fixpoint for_fold {A S} (l : list A) (s : S) (body : A -> S -> Proc S)
  : Proc S :=
  match l with
  | [] => ret s
  | x :: l' => s' <- body x s ;; for_fold l' s' body
  end.

Definition cout (l : list chunk) : Proc unit := emit (EvCout l).
Definition cerr (l : list chunk) : Proc unit := emit (EvCerr l).
Definition perror (s err : string) : Proc unit := emit (EvPerror s err).
Definition dup2 (oldfd newfd : Z) : Proc unit := emit (EvDup2 oldfd newfd).
Definition close (fd : Z) : Proc unit := emit (EvClose fd).
Definition wait : Proc unit := emit EvWait.
Definition waitpid (pid options : Z) : Proc unit :=
  emit (EvWaitpid pid options).
Definition kill (pid sig : Z) : Proc unit := emit (EvKill pid sig).

Definition exit {A} (status : Z) : Proc A :=
  fun w => (Exited status, add_events [EvExit status] w).

Section WithEnv.
Context (env : Env).

(** [open(path, flags, 0644)]; the result is the descriptor or -1. *)
Definition open (path : string) (flags : Z) : Proc Z :=
  let fd := match sys_open env path flags with
            | Some fd => Z.of_N fd
            | None => (-1)%Z
            end in
  emit (EvOpen path flags 420 fd) >> ret fd.

(** [pipe(pipefds + at)]: on success the two descriptors are stored in
    [pipefds[at]] and [pipefds[at + 1]]; on failure the array is left as
    it is. *)
Definition pipe (pipefds : list Z) (at_ : nat) : Proc (list Z) :=
  fun w =>
    let r := sys_pipe env (npipe w) in
    let w' := add_events [EvPipe r] (count_pipe w) in
    match r with
    | Some (rd, wr) =>
        (Ret (<[S at_ := Z.of_N wr]> (<[at_ := Z.of_N rd]> pipefds)), w')
    | None => (Ret pipefds, w')
    end.

(** [pid = fork(); if (pid == 0) { child }]: the parent goes on with the
    child's pid (or -1); the child runs [child] on a copy of the
    parent's memory, and what it does is recorded in [children]. *)
Definition fork (child : Proc unit) : Proc Z :=
  fun w =>
    match sys_fork env (nfork w) with
    | Some p =>
        let '(e, wc) := child (child_image w) in
        (Ret (Z.pos p),
         add_child {| child_pid := Z.pos p; child_trace := trace wc;
                      child_end := e |}
           (add_events [EvFork (Z.pos p)] (count_fork w)))
    | None => (Ret (-1)%Z, add_events [EvFork (-1)] (count_fork w))
    end.

(** [execvp(argv[0], argv)].  It returns only on failure; the result is
    then [strerror(errno)].  With an empty [args] the file name is the
    null pointer. *)
Definition execvp (args : list string) : Proc string :=
  match args with
  | [] => undefined "execvp(nullptr, argv)"
  | _ :: _ =>
      match sys_execvp env args with
      | None => fun w => (Replaced args, add_events [EvExecvp args None] w)
      | Some err => emit (EvExecvp args (Some err)) >> ret err
      end
  end.

(** *** Redirection *)

Definition is_redirection (a : string) : bool :=
  String.eqb a ">" || String.eqb a ">>" || String.eqb a "<".

(** The [for] loop of [handleRedirection] at index [i].  [args !! i] is
    [None] exactly when [i < args.size()] fails.  After the [erase] the
    source runs [i--] and then the loop's [++i], so the index stays.
    Each turn either advances [i] or shortens [args]; [fuel] bounds the
    number of turns. *)
Fixpoint handleRedirection_loop (fuel i : nat) (args : list string)
  : Proc (list string) :=
  match fuel with
  | O => ret args
  | S fuel =>
      match args !! i with
      | None => ret args
      | Some a =>
          if is_redirection a then
            match args !! (i + 1) with
            | None => handleRedirection_loop fuel (i + 1) args
            | Some path =>
                let flags :=
                  if String.eqb a ">"
                  then Z.lor (Z.lor O_WRONLY O_CREAT) O_TRUNC
                  else if String.eqb a ">>"
                  then Z.lor (Z.lor O_WRONLY O_CREAT) O_APPEND
                  else O_RDONLY in
                fd <- open path flags ;;
                (if String.eqb a "<" then dup2 fd STDIN_FILENO
                 else dup2 fd STDOUT_FILENO) >>
                close fd >>
                handleRedirection_loop fuel i
                  (take i args ++ drop (i + 2) args)
            end
          else handleRedirection_loop fuel (i + 1) args
      end
  end.

(** [handleRedirection(args)]; the result is [args] as the call leaves
    it. *)
Definition handleRedirection (args : list string) : Proc (list string) :=
  handleRedirection_loop (length args) 0 args.

(** *** Built-ins *)

Definition help_text : string :=
  "myshell: built-in commands:" +:+ NL +:+
  "basic shell commands like ls, cat, grep, sort etc." +:+ NL +:+
  "  cd [dir]       – change directory" +:+ NL +:+
  "  export K=V     – set env var" +:+ NL +:+
  "  history        – show command history" +:+ NL +:+
  "  jobs, fg, bg   – job control" +:+ NL +:+
  "  help           – this message" +:+ NL +:+
  "  exit/$Q        – quit shell" +:+ NL +:+
  "Also supports pipelines (|), redirection (<, >, >>), background (&)"
  +:+ NL.

Definition handleBuiltins (args : list string) : Proc bool :=
  match args with
  | [] => ret true
  | a0 :: _ =>
      if String.eqb a0 "cd" then
        let dir := match args !! 1%nat with
                   | Some d => Some d
                   | None => env_HOME env
                   end in
        emit (EvChdir dir) >>
        (match sys_chdir env dir with
         | Some err => perror "cd failed" err
         | None => ret tt
         end) >>
        ret true
      else if String.eqb a0 "export" then
        (if Nat.eqb (length args) 2 then emit (EvPutenv (args !!! 1%nat))
         else cerr [Str ("Usage: export KEY=VALUE" +:+ NL)]) >>
        ret true
      else if String.eqb a0 "history" then
        h <- get history ;;
        for_each (seq 0 (length h))
          (fun i => cout [Num (Z.of_nat i + 1); Str "  "; Str (h !!! i);
                          Str NL]) >>
        ret true
      else if String.eqb a0 "help" then
        cout [Str help_text] >> ret true
      else if String.eqb a0 "exit" || String.eqb a0 "$Q" then exit 0
      else ret false
  end.

(** *** Jobs *)

Definition set_running (b : bool) (job : Job) : Job :=
  {| job_id := job_id job; job_pid := job_pid job;
     job_cmdline := job_cmdline job; job_running := b |}.

(** The [fg] and [bg] branch searches the first job whose [id] is [jid];
    [list_find] returns its index and the job. *)
Definition handleJobBuiltins (args : list string) : Proc bool :=
  match args with
  | [] => ret false
  | a0 :: _ =>
      if String.eqb a0 "jobs" then
        js <- get jobs ;;
        for_each js
          (fun job =>
             cout [Str "["; Num (job_id job); Str "] ";
                   Str (if job_running job then "Running"
                        else "Stopped/Done");
                   Str "  "; Str (job_cmdline job); Str NL]) >>
        ret true
      else if (String.eqb a0 "fg" || String.eqb a0 "bg")
              && Nat.eqb (length args) 2 then
        match stoi (args !!! 1%nat) with
        | inl e => throw e
        | inr jid =>
            js <- get jobs ;;
            match list_find (fun job => job_id job = jid) js with
            | Some (k, it) =>
                kill (job_pid it) SIGCONT >>
                (if String.eqb a0 "fg" then
                   waitpid (job_pid it) 0 >>
                   modify (fun w => set_jobs (delete k (jobs w)) w)
                 else
                   modify (fun w =>
                     set_jobs (<[k := set_running true it]> (jobs w)) w)) >>
                ret true
            | None =>
                cerr [Str a0; Str ": job not found: "; Num jid; Str NL] >>
                ret true
            end
        end
      else ret false
  end.

(** *** Typo suggestion *)

(** One row of the matrix [dp] of [levenshtein]: [prev] is row [i-1]
    from column [j-1] on, [left] is [dp[i][j-1]], [c] is [a[i-1]] and
    the string is [b] from [b[j-1]] on. *)
Fixpoint levenshtein_row (c : ascii) (b : string) (prev : list Z)
  (left : Z) : list Z :=
  match b, prev with
  | String d b', diag :: ((up :: _) as prev') =>
      let v := Z.min (Z.min (up + 1) (left + 1))
                 (diag + (if Ascii.eqb c d then 0 else 1)) in
      v :: levenshtein_row c b' prev' v
  | _, _ => []
  end.

(** Rows [i+1 ..] of [dp], given row [i]; the result is the last row. *)
Fixpoint levenshtein_rows (a b : string) (i : Z) (prev : list Z)
  : list Z :=
  match a with
  | EmptyString => prev
  | String c a' =>
      levenshtein_rows a' b (i + 1)
        ((i + 1)%Z :: levenshtein_row c b prev (i + 1))
  end.

(** [levenshtein(a, b)] is [dp[n][m]]; row 0 is [0, 1, .., m]. *)
Definition levenshtein (a b : string) : Z :=
  default 0%Z
    (last (levenshtein_rows a b 0
             (Z.of_nat <$> seq 0 (S (String.length b))))).

Definition suggest_builtins : list string :=
  ["cd"; "export"; "exit"; "help"; "history"; "jobs"; "fg"; "bg"].

Definition suggest (cmd : string) : Proc unit :=
  let '(best, bestDist) :=
    foldl (fun '(best, bestDist) b =>
             let dist := levenshtein cmd b in
             if Z.ltb dist bestDist then (b, dist) else (best, bestDist))
          ("", 1000000000%Z) suggest_builtins in
  if Z.leb bestDist 2
  then cout [Str "Did you mean `"; Str best; Str ("`?" +:+ NL)]
  else ret tt.

(** *** Pipelines *)

(** The child of stage [i] of [executePipeline]. *)
Definition pipeline_child (n i : nat) (pipefds : list Z)
  (command : string) : Proc unit :=
  (if Nat.ltb 0 i then dup2 (pipefds !!! ((i - 1) * 2)%nat) STDIN_FILENO
   else ret tt) >>
  (if Nat.ltb i (n - 1) then dup2 (pipefds !!! (i * 2 + 1)%nat) STDOUT_FILENO
   else ret tt) >>
  for_each (seq 0 (2 * (n - 1))) (fun j => close (pipefds !!! j)) >>
  args <- handleRedirection (tokenize command) ;;
  err <- execvp args ;;
  perror "exec failed" err >>
  exit 1.

(** [executePipeline(commands)].  [runCommand] calls it with at least
    two commands; [n - 1] is then the same number in [int] and in
    [nat]. *)
Definition executePipeline (commands : list string) : Proc unit :=
  let n := length commands in
  let pipefds := stack_garbage env <$> seq 0 (2 * (n - 1)) in
  pipefds <- for_fold (seq 0 (n - 1)) pipefds
               (fun i pipefds => pipe pipefds (i * 2)) ;;
  for_each (seq 0 n)
    (fun i =>
       fork (pipeline_child n i pipefds (commands !!! i)) >> ret tt) >>
  for_each (seq 0 (2 * (n - 1))) (fun j => close (pipefds !!! j)) >>
  for_each (seq 0 n) (fun _ => wait).

(** *** Commands *)

(** The child of the single-command path of [runCommand]. *)
Definition command_child (args : list string) : Proc unit :=
  args <- handleRedirection args ;;
  err <- execvp args ;;
  cerr [Str "Error: `"; Str (args !!! 0%nat); Str "`: "; Str err;
        Str NL] >>
  suggest (args !!! 0%nat) >>
  exit 1.

(** [runCommand(input)].  [input.back()] needs a non-empty string;
    [main] never passes an empty one. *)
Definition runCommand (input : string) : Proc unit :=
  match back input with
  | None => undefined "input.back() on an empty string"
  | Some last_char =>
      let background := Ascii.eqb last_char "&"%char in
      let input := if background then pop_back input else input in
      let parts := splitByPipe input in
      if Nat.ltb 1 (length parts) then executePipeline parts
      else
        let args := tokenize input in
        b <- handleBuiltins args ;;
        if b : bool then ret tt else
        b <- handleJobBuiltins args ;;
        if b : bool then ret tt else
        pid <- fork (command_child args) ;;
        if negb background then waitpid pid 0
        else
          id <- get nextJobId ;;
          modify (set_nextJobId (id + 1)) >>
          modify (fun w =>
            set_jobs (jobs w ++ [{| job_id := id; job_pid := pid;
                                    job_cmdline := input;
                                    job_running := true |}]) w) >>
          cout [Str "["; Num id; Str "] "; Num pid; Str NL]
  end.

(** *** The read loop *)

Definition MAX_HISTORY : nat := 1000.

Fixpoint loadHistory_loop (file h : list string) : list string :=
  match file with
  | [] => h
  | line :: file' =>
      if Nat.ltb (length h) MAX_HISTORY
      then loadHistory_loop file'
             (if is_empty line then h else h ++ [line])
      else h
  end.

Definition loadHistory : Proc unit :=
  modify (fun w =>
    set_history (loadHistory_loop (history_file env) (history w)) w).

Definition appendHistory (line : string) : Proc unit :=
  emit (EvAppendHistory line).

Definition initJobControl : Proc unit := emit (EvSigaction SIGCHLD).

(** The [while (true)] of [main]; [lines] are the lines [readline]
    returns, after which it returns the null pointer. *)
Fixpoint main_loop (lines : list string) : Proc unit :=
  match lines with
  | [] => ret tt
  | input :: lines' =>
      if is_empty input then main_loop lines'
      else
        emit (EvAddHistory input) >>
        modify (fun w => set_history (history w ++ [input]) w) >>
        appendHistory input >>
        runCommand input >>
        main_loop lines'
  end.

(** [main]: an exception that leaves it calls [std::terminate]. *)
Definition main (lines : list string) : Proc Z :=
  initJobControl >>
  loadHistory >>
  cout [Str ("Welcome to Custom Shell! Type 'exit' or '$Q' to quit."
             +:+ NL)] >>
  main_loop lines >>
  cout [Str (NL +:+ "Goodbye!" +:+ NL)] >>
  ret 0%Z.

End WithEnv.

(** *** The asynchronous reaper *)

(** The status tests of [<sys/wait.h>]. *)
Class WaitMacros : Type := {
  WIFEXITED : Z -> bool;
  WIFSIGNALED : Z -> bool;
  WIFSTOPPED : Z -> bool;
  WIFCONTINUED : Z -> bool
}.

(** Their definitions in glibc on Linux. *)
Definition linux_wait : WaitMacros := {|
  WIFEXITED := fun status => Z.eqb (Z.land status 127) 0;
  WIFSIGNALED := fun status =>
    Z.leb 1 (Z.land status 127) && Z.leb (Z.land status 127) 126;
  WIFSTOPPED := fun status => Z.eqb (Z.land status 255) 127;
  WIFCONTINUED := fun status => Z.eqb status 65535
|}.

Section Reaper.
Context `{WaitMacros}.

(** The body of [for (auto &job : jobs)] in [sigchldHandler]. *)
Definition reap (pid status : Z) (job : Job) : Job :=
  if negb (Z.eqb (job_pid job) pid) then job
  else if WIFEXITED status || WIFSIGNALED status
  then set_running false job
  else if WIFSTOPPED status then set_running false job
  else if WIFCONTINUED status then set_running true job
  else job.

(** [sigchldHandler]: [pending] lists what the successive calls
    [waitpid(-1, &status, WNOHANG | WUNTRACED | WCONTINUED)] return, as
    (pid, status); when the list is used up the call returns 0 or -1.
    The loop goes on while the pid is positive. *)
Fixpoint sigchldHandler (pending : list (Z * Z)) (jobs : list Job)
  : list Job :=
  match pending with
  | [] => jobs
  | (pid, status) :: pending' =>
      if Z.ltb 0 pid
      then sigchldHandler pending' (reap pid status <$> jobs)
      else jobs
  end.

End Reaper.

(** *** Vocabulary of the statements *)

(** The globals of the shell when [main] starts. *)
Definition initial_world : World :=
  {| jobs := []; nextJobId := 1; history := []; trace := [];
     children := []; npipe := 0; nfork := 0 |}.

(** [w] after a piece of code that issued the events [es], forked the
    children [cs], called [pipe] [dp] times and [fork] [df] times, and
    left the globals alone. *)
Definition advance (es : list event) (cs : list Child) (dp df : nat)
  (w : World) : World :=
  {| jobs := jobs w; nextJobId := nextJobId w; history := history w;
     trace := trace w ++ es; children := children w ++ cs;
     npipe := npipe w + dp; nfork := nfork w + df |}.

(** What a left-to-right scan of [handleRedirection] keeps in [args]: an
    operator takes the next token as its path whatever that token is; an
    operator in last position stays. *)
Fixpoint kept (args : list string) : list string :=
  match args with
  | [] => []
  | a :: rest =>
      if is_redirection a then
        match rest with
        | [] => [a]
        | _ :: rest' => kept rest'
        end
      else a :: kept rest
  end.

(** The (operator, path) pairs the scan acts on, in order. *)
Fixpoint performed (args : list string) : list (string * string) :=
  match args with
  | [] => []
  | a :: rest =>
      if is_redirection a then
        match rest with
        | [] => []
        | path :: rest' => (a, path) :: performed rest'
        end
      else performed rest
  end.

(** Whether the scan of [args] ends on an operator in last position,
    which would take a token appended to [args] as its path. *)
Fixpoint dangling (args : list string) : bool :=
  match args with
  | [] => false
  | a :: rest =>
      if is_redirection a then
        match rest with
        | [] => true
        | _ :: rest' => dangling rest'
        end
      else dangling rest
  end.

Definition redirection_flags (op : string) : Z :=
  if String.eqb op ">" then Z.lor (Z.lor O_WRONLY O_CREAT) O_TRUNC
  else if String.eqb op ">>" then Z.lor (Z.lor O_WRONLY O_CREAT) O_APPEND
  else O_RDONLY.

Definition redirection_target (op : string) : Z :=
  if String.eqb op "<" then STDIN_FILENO else STDOUT_FILENO.

(** [open], [dup2], [close] for one (operator, path) pair; [fd] is -1
    when the path cannot be opened. *)
Definition redirection_events (env : Env) (r : string * string)
  : list event :=
  let fd := match sys_open env r.2 (redirection_flags r.1) with
            | Some fd => Z.of_N fd
            | None => (-1)%Z
            end in
  [EvOpen r.2 (redirection_flags r.1) 420 fd;
   EvDup2 fd (redirection_target r.1);
   EvClose fd].

(** An event that reports something to the user or ends the process. *)
Definition is_report (e : event) : bool :=
  match e with
  | EvCout _ | EvCerr _ | EvPerror _ _ | EvExit _ => true
  | _ => false
  end.

(** The descriptors of [pipefds] after the [pipe] loop has stored the
    results [rs] from pipe number [i] on. *)
Fixpoint store_pipes (rs : list (option (N * N))) (i : nat)
  (pipefds : list Z) : list Z :=
  match rs with
  | [] => pipefds
  | r :: rs' =>
      store_pipes rs' (S i)
        match r with
        | Some (rd, wr) =>
            <[S (i * 2) := Z.of_N wr]> (<[i * 2 := Z.of_N rd]> pipefds)
        | None => pipefds
        end
  end.

(** The two descriptors of each pipe, in the order of [pipefds]. *)
Definition pipe_descriptors (pipes : list (N * N)) : list Z :=
  pipes ≫= (fun p => [Z.of_N p.1; Z.of_N p.2]).

(** What [fork] returns in the parent. *)
Definition fork_ret (r : option positive) : Z :=
  match r with Some p => Z.pos p | None => (-1)%Z end.

(** The descriptor wiring of stage [i] of [n] in the child. *)
Definition wiring (n i : nat) (pipefds : list Z) : list event :=
  (if Nat.ltb 0 i then [EvDup2 (pipefds !!! ((i - 1) * 2)%nat) STDIN_FILENO]
   else []) ++
  (if Nat.ltb i (n - 1)
   then [EvDup2 (pipefds !!! (i * 2 + 1)%nat) STDOUT_FILENO] else []) ++
  ((fun j => EvClose (pipefds !!! j)) <$> seq 0 (2 * (n - 1))).

(** The flag [running] of a job after a notification [status] for its
    pid, [r] being the flag before. *)
Definition running_after `{WaitMacros} (r : bool) (status : Z) : bool :=
  if WIFEXITED status || WIFSIGNALED status || WIFSTOPPED status then false
  else if WIFCONTINUED status then true
  else r.

(** A kernel and file system for the examples: pipes and forks succeed,
    every path but [missing] opens as descriptor 3, the programs [sleep],
    [cat] and [wc] exist. *)
Definition sample_env : Env := {|
  sys_pipe := fun k => Some (N.of_nat (3 + 2 * k), N.of_nat (4 + 2 * k));
  sys_fork := fun k => Some (Pos.of_nat (100 + k));
  sys_open := fun path _ =>
    if String.eqb path "missing" then None else Some 3%N;
  sys_execvp := fun argv =>
    match argv with
    | a :: _ =>
        if String.eqb a "sleep" || String.eqb a "cat" || String.eqb a "wc"
        then None else Some "No such file or directory"
    | [] => Some "Bad address"
    end;
  sys_chdir := fun _ => None;
  env_HOME := Some "/root";
  history_file := [];
  stack_garbage := fun _ => (-7)%Z
|}.

Definition sample_job : Job :=
  {| job_id := 1; job_pid := 100; job_cmdline := "sleep 5 ";
     job_running := true |}.

End Shell.

(** ** The unified shell of [unified_shell.cpp] *)
Module Unified.
Import Classifier.

(** *** Text *)

(** The double quote character. *)
Definition DQUOTE : string := String "034"%char "".

(** [s.find(c) != std::string::npos] *)
Fixpoint contains (c : ascii) (s : string) : bool :=
  match s with
  | EmptyString => false
  | String d rest => Ascii.eqb d c || contains c rest
  end.

(** [s.find(c)]: the position of the first [c], [None] for [npos]. *)
Fixpoint find (c : ascii) (s : string) : option nat :=
  match s with
  | EmptyString => None
  | String d rest => if Ascii.eqb d c then Some 0 else S <$> find c rest
  end.

(** [s.substr(pos)] and [s.substr(0, len)], for [pos] and [len] within
    the string. *)
Fixpoint substr_from (pos : nat) (s : string) : string :=
  match pos, s with
  | O, _ => s
  | S pos', String _ rest => substr_from pos' rest
  | S _, EmptyString => EmptyString
  end.

Fixpoint substr_to (len : nat) (s : string) : string :=
  match len, s with
  | O, _ => EmptyString
  | S len', String c rest => String c (substr_to len' rest)
  | S _, EmptyString => EmptyString
  end.

(** The lines [while (std::getline(file, line))] reads from a file with
    the content [input]; [line] is the line being read.  As for
    [Shell.splitByPipe], a last line without characters is not read. *)
Fixpoint getlines_from (line input : string) : list string :=
  match input with
  | EmptyString => if Shell.is_empty line then [] else [line]
  | String c rest =>
      if Ascii.eqb c "010"%char
      then line :: getlines_from "" rest
      else getlines_from (Shell.push_back line c) rest
  end.

Definition getlines (input : string) : list string := getlines_from "" input.

(** [UnifiedShell::tokenize] is the code of [Shell.tokenize]. *)
Definition tokenize (input : string) : list string := Shell.tokenize input.

(** *** The host *)

(** What the build and the probes of [OSDetector] find: whether [_WIN32]
    is defined, and whether [popen(command, "r")] succeeds and yields some
    output. *)
Record Host : Type := {
  win32 : bool;
  popen_output : string -> bool
}.

Definition hasWSL (h : Host) : bool :=
  if win32 h then popen_output h "wsl --list --quiet 2>nul"
  else popen_output h "which wsl.exe 2>/dev/null".

Definition hasCmd (h : Host) : bool :=
  if win32 h then true else popen_output h "which cmd.exe 2>/dev/null".

Definition hasPowerShell (h : Host) : bool :=
  if win32 h then popen_output h "where powershell 2>nul"
  else popen_output h "which powershell.exe 2>/dev/null".

(** *** Executors *)

(** The three classes that implement [CommandExecutor], with their
    fields. *)
Inductive Executor : Set :=
| WindowsExecutor (usesPowerShell : bool)
| LinuxExecutor
| WSLExecutor (distribution : string).

Definition isAvailable (h : Host) (e : Executor) : bool :=
  match e with
  | WindowsExecutor _ =>
      if win32 h then true else hasCmd h || hasPowerShell h
  | LinuxExecutor => if win32 h then hasWSL h else true
  | WSLExecutor _ => hasWSL h
  end.

Definition canHandleCommand (e : Executor) (command : string) : bool :=
  match e with
  | WindowsExecutor _ => isWindowsCommand command
  | LinuxExecutor => isLinuxCommand command
  | WSLExecutor _ => isLinuxCommand command
  end.

Definition getName (h : Host) (e : Executor) : string :=
  match e with
  | WindowsExecutor usesPowerShell =>
      if usesPowerShell then "PowerShell" else "Windows CMD"
  | LinuxExecutor =>
      if win32 h then "WSL (Linux commands)" else "Linux Native"
  | WSLExecutor distribution =>
      "WSL" +:+ (if Shell.is_empty distribution then ""
                 else " (" +:+ distribution +:+ ")")
  end.

Definition CommandMode_eqb (a b : CommandMode) : bool :=
  match a, b with
  | WINDOWS, WINDOWS | LINUX, LINUX | AUTO_DETECT, AUTO_DETECT => true
  | _, _ => false
  end.

(** [executors] is a [std::unordered_map]: a list of entries with distinct
    keys, in the order in which the map iterates.  [executors.find(mode)]: *)
Definition find_executor (executors : list (CommandMode * Executor))
  (mode : CommandMode) : option Executor :=
  snd <$> List.find (fun entry => CommandMode_eqb entry.1 mode) executors.

(** The entries [UnifiedShell::initialize] makes, in one of the two
    possible orders. *)
Definition registered : list (CommandMode * Executor) :=
  [(WINDOWS, WindowsExecutor false); (LINUX, LinuxExecutor)].

(** [UnifiedShell::selectExecutor]; [None] is the null pointer. *)
Definition selectExecutor (h : Host)
  (executors : list (CommandMode * Executor)) (currentMode : CommandMode)
  (command : string) : option Executor :=
  let pinned :=
    if negb (CommandMode_eqb currentMode AUTO_DETECT) then
      match find_executor executors currentMode with
      | Some e => if isAvailable h e then Some e else None
      | None => None
      end
    else None in
  match pinned with
  | Some e => Some e
  | None =>
      let detectedMode := detectCommandType command in
      let detected :=
        if negb (CommandMode_eqb detectedMode AUTO_DETECT) then
          match find_executor executors detectedMode with
          | Some e => if isAvailable h e then Some e else None
          | None => None
          end
        else None in
      match detected with
      | Some e => Some e
      | None =>
          snd <$> List.find
                    (fun entry => isAvailable h entry.2
                                  && canHandleCommand entry.2 command)
                    executors
      end
  end.

(** [WindowsExecutor::buildCommand]; [i] is the index of the first of
    [args]. *)
Fixpoint buildCommand_from (i : nat) (args : list string) : string :=
  match args with
  | [] => ""
  | a :: rest =>
      (if Nat.ltb 0 i then " " else "") +:+
      (if contains " "%char a then DQUOTE +:+ a +:+ DQUOTE else a) +:+
      buildCommand_from (S i) rest
  end.

Definition buildCommand (args : list string) : string :=
  buildCommand_from 0 args.

(** *** Configuration *)

(** [class ShellConfig], without the path of its file. *)
Record ShellConfig : Set := {
  defaultMode : CommandMode;
  autoDetectCommands : bool;
  savePreferences : bool
}.

(** The values the constructor sets. *)
Definition default_config : ShellConfig :=
  {| defaultMode := AUTO_DETECT; autoDetectCommands := true;
     savePreferences := true |}.

(** The body of the loop of [ShellConfig::loadConfig] for one line. *)
Definition loadConfig_line (cfg : ShellConfig) (line : string)
  : ShellConfig :=
  match line with
  | EmptyString => cfg
  | String c _ =>
      if Ascii.eqb c "#"%char then cfg
      else
        match find "="%char line with
        | None => cfg
        | Some pos =>
            let key := substr_to pos line in
            let value := substr_from (pos + 1) line in
            if String.eqb key "default_mode" then
              {| defaultMode :=
                   if String.eqb value "windows" then WINDOWS
                   else if String.eqb value "linux" then LINUX
                   else AUTO_DETECT;
                 autoDetectCommands := autoDetectCommands cfg;
                 savePreferences := savePreferences cfg |}
            else if String.eqb key "auto_detect" then
              {| defaultMode := defaultMode cfg;
                 autoDetectCommands := String.eqb value "true";
                 savePreferences := savePreferences cfg |}
            else if String.eqb key "save_preferences" then
              {| defaultMode := defaultMode cfg;
                 autoDetectCommands := autoDetectCommands cfg;
                 savePreferences := String.eqb value "true" |}
            else cfg
        end
  end.

(** [ShellConfig::loadConfig]; [file] is the content of the configuration
    file, [None] when it cannot be opened. *)
Definition loadConfig (file : option string) (cfg : ShellConfig)
  : ShellConfig :=
  match file with
  | None => cfg
  | Some content => foldl loadConfig_line cfg (getlines content)
  end.

(** [ShellConfig::saveConfig]: the content written to the file, [None]
    when nothing is written; [opens] tells whether the file can be opened
    for writing. *)
Definition saveConfig (opens : bool) (cfg : ShellConfig) : option string :=
  if negb (savePreferences cfg) then None
  else if negb opens then None
  else Some
    ("# Unified Shell Configuration" +:+ Shell.NL +:+
     "default_mode=" +:+
     (match defaultMode cfg with
      | WINDOWS => "windows"
      | LINUX => "linux"
      | AUTO_DETECT => "auto_detect"
      end) +:+ Shell.NL +:+
     "auto_detect=" +:+
     (if autoDetectCommands cfg then "true" else "false") +:+ Shell.NL +:+
     "save_preferences=" +:+
     (if savePreferences cfg then "true" else "false") +:+ Shell.NL).

(** *** History *)

Definition MAX_HISTORY : nat := 1000.

(** [UnifiedShell::addToHistory] *)
Definition addToHistory (history : list string) (command : string)
  : list string :=
  let history := (history ++ [command])%list in
  if Nat.ltb MAX_HISTORY (length history) then drop 1 history else history.

(** [UnifiedShell::loadHistory]: the loop is the one of
    [Shell.loadHistory]; [file] is the content of the history file, [None]
    when there is no home directory or the file cannot be opened. *)
Definition loadHistory (file : option string) (history : list string)
  : list string :=
  match file with
  | None => history
  | Some content => Shell.loadHistory_loop (getlines content) history
  end.

(** [UnifiedShell::saveHistory]: the content written to the file. *)
Fixpoint saveHistory (history : list string) : string :=
  match history with
  | [] => ""
  | cmd :: rest => cmd +:+ Shell.NL +:+ saveHistory rest
  end.

(** *** Launching *)





(** *** The interactive shell *)

(** The fields of [UnifiedShell] the commands read and write, and the
    lines still to be read from [std::cin]. *)
Record State : Set := {
  currentMode : CommandMode;
  config : ShellConfig;
  history : list string;
  cin : list string
}.

(** [std::getline(std::cin, choice)] into an empty [choice]; at the end of
    the input [choice] stays empty. *)
Definition getline (s : State) : string * State :=
  match cin s with
  | [] => ("", s)
  | line :: rest =>
      (line, {| currentMode := currentMode s; config := config s;
                history := history s; cin := rest |})
  end.

(** [UnifiedShell::promptForMode]; [choice[0]] of an empty [choice] is the
    null character. *)
Definition promptForMode (s : State) : CommandMode * State :=
  let '(choice, s) := getline s in
  (match choice with
   | String "1"%char _ => WINDOWS
   | String "2"%char _ => LINUX
   | _ => AUTO_DETECT
   end, s).

Definition setMode (mode : CommandMode) (s : State) : State :=
  {| currentMode := mode; config := config s; history := history s;
     cin := cin s |}.

Definition set_config (cfg : ShellConfig) (s : State) : State :=
  {| currentMode := currentMode s; config := cfg; history := history s;
     cin := cin s |}.

(** [UnifiedShell::configureShell] *)
Definition configureShell (s : State) : State :=
  let '(choice, s) := getline s in
  match choice with
  | String "1"%char _ =>
      let '(mode, s) := promptForMode s in
      set_config {| defaultMode := mode;
                    autoDetectCommands := autoDetectCommands (config s);
                    savePreferences := savePreferences (config s) |} s
  | String "2"%char _ =>
      set_config {| defaultMode := defaultMode (config s);
                    autoDetectCommands := negb (autoDetectCommands (config s));
                    savePreferences := savePreferences (config s) |} s
  | String "3"%char _ =>
      set_config {| defaultMode := defaultMode (config s);
                    autoDetectCommands := autoDetectCommands (config s);
                    savePreferences := negb (savePreferences (config s)) |} s
  | String "4"%char _ =>
      {| currentMode := currentMode s; config := config s; history := [];
         cin := cin s |}
  | String "5"%char _ => set_config default_config s
  | _ => s
  end.

(** [UnifiedShell::handleBuiltins]: its result and the fields after it;
    what it prints is left out. *)
Definition handleBuiltins (args : list string) (s : State) : bool * State :=
  match args with
  | [] => (false, s)
  | cmd :: rest =>
      if String.eqb cmd "help" then (true, s)
      else if String.eqb cmd "mode" then
        match rest with
        | mode :: _ =>
            if String.eqb mode "windows" || String.eqb mode "win"
            then (true, setMode WINDOWS s)
            else if String.eqb mode "linux" || String.eqb mode "lnx"
            then (true, setMode LINUX s)
            else if String.eqb mode "auto"
            then (true, setMode AUTO_DETECT s)
            else (true, s)
        | [] =>
            let '(mode, s) := promptForMode s in (true, setMode mode s)
        end
      else if String.eqb cmd "status" then (true, s)
      else if String.eqb cmd "config" then (true, configureShell s)
      else if String.eqb cmd "history" then (true, s)
      else if String.eqb cmd "clear" || String.eqb cmd "cls" then (true, s)
      else (false, s)
  end.

(** How [UnifiedShell::executeCommand] ends: [return 0], [return -2],
    [return -1] after the message, or
    [return executor->execute(args, background)]. *)
Inductive Outcome : Set :=
| Handled
| Quit
| NoExecutor (command : string)
| Execute (e : Executor) (args : list string) (background : bool).

(** [args.pop_back()] *)
Definition pop_last (args : list string) : list string :=
  take (length args - 1) args.

Definition executeCommand (h : Host)
  (executors : list (CommandMode * Executor)) (input : string) (s : State)
  : Outcome * State :=
  let args := tokenize input in
  match args with
  | [] => (Handled, s)
  | a0 :: _ =>
      let '(handled, s) := handleBuiltins args s in
      if handled then (Handled, s)
      else if String.eqb a0 "exit" || String.eqb a0 "quit" then (Quit, s)
      else
        match selectExecutor h executors (currentMode s) a0 with
        | None => (NoExecutor a0, s)
        | Some executor =>
            if bool_decide (last args = Some "&")
            then (Execute executor (pop_last args) true, s)
            else (Execute executor args false, s)
        end
  end.

(** The constructor of [UnifiedShell]: [file] is the content of the
    configuration file, [None] when it cannot be opened; [input] is what
    [std::cin] will give. *)
Definition UnifiedShell (file : option string) (input : list string)
  : State :=
  let cfg := loadConfig file default_config in
  {| currentMode := defaultMode cfg; config := cfg; history := [];
     cin := input |}.

(** [UnifiedShell::initialize]: the fields after it, and the content
    [saveConfig] wrote, [None] when it was not called or wrote nothing.
    [histfile] is the content of the history file and [opens] tells whether
    the configuration file can be opened for writing. *)
Definition initialize (histfile : option string) (opens : bool) (s : State)
  : State * option string :=
  let s := {| currentMode := currentMode s; config := config s;
              history := loadHistory histfile (history s); cin := cin s |} in
  if CommandMode_eqb (currentMode s) AUTO_DETECT then
    let '(mode, s) := promptForMode s in
    let cfg := {| defaultMode := mode;
                  autoDetectCommands := autoDetectCommands (config s);
                  savePreferences := savePreferences (config s) |} in
    ({| currentMode := mode; config := cfg; history := history s;
        cin := cin s |},
     saveConfig opens cfg)
  else (s, None).

End Unified.

(** ** Vocabulary of the further properties *)
Module Vocabulary.
Import Shell.

(** The job table of the POSIX shell lists its jobs by increasing [id],
    all below [nextJobId]. *)
Definition job_ids_ok (w : World) : Prop :=
  StronglySorted Z.lt (job_id <$> jobs w) ∧
  Forall (fun id => (id < nextJobId w)%Z) (job_id <$> jobs w).

(** Row [i] of the matrix [dp] of [levenshtein] from column [j] on: each
    entry lies between the difference and the larger of its two indices. *)
Definition row_bounds (i j : Z) (row : list Z) : Prop :=
  ∀ (k : nat) v, row !! k = Some v →
    (Z.abs (i - (j + Z.of_nat k)) ≤ v ≤ Z.max i (j + Z.of_nat k))%Z.

(** The line [suggest] prints for the built-in [best]. *)
Definition hint (best : string) : event :=
  EvCout [Str "Did you mean `"; Str best; Str ("`?" +:+ NL)].

(** What the child of a pipeline stage does once its descriptors are
    wired: the redirections of [command], then [execvp], and when that
    returns the diagnostic and [exit(1)]. *)
Definition stage_run (env : Env) (command : string) : list event :=
  (performed (tokenize command) ≫= redirection_events env) ++
  match kept (tokenize command) with
  | [] => []
  | _ :: _ =>
      match sys_execvp env (kept (tokenize command)) with
      | None => [EvExecvp (kept (tokenize command)) None]
      | Some err =>
          [EvExecvp (kept (tokenize command)) (Some err);
           EvPerror "exec failed" err; EvExit 1]
      end
  end.

(** How that child ends. *)
Definition stage_end (env : Env) (command : string) : result unit :=
  match kept (tokenize command) with
  | [] => Undefined "execvp(nullptr, argv)"
  | _ :: _ =>
      match sys_execvp env (kept (tokenize command)) with
      | None => Replaced (kept (tokenize command))
      | Some _ => Exited 1
      end
  end.

End Vocabulary.

(** * Verification *)

Import Classifier Shell.
Open Scope list_scope.
Open Scope nat_scope.

(** ** The classifier *)

Section ClassifierFacts.

Lemma in_table (c : string) (T : gset string) :
  bool_decide (c ∈ T) = true → c ∈ T.
Proof. apply bool_decide_eq_true_1. Qed.

Lemma not_in_table (c : string) (T : gset string) :
  bool_decide (c ∈ T) = false → c ∉ T.
Proof. apply bool_decide_eq_false_1. Qed.

Lemma tables_overlap :
  windowsCommands ∩ linuxCommands
  = {[ "cd"; "find"; "sort"; "more"; "ping"; "netstat" ]}.
Proof. refine (bool_decide_unpack _ _). vm_compute. exact I. Qed.

Lemma builtins_windows : builtins ∩ windowsCommands = {[ "cls" ]}.
Proof. refine (bool_decide_unpack _ _). vm_compute. exact I. Qed.

Lemma builtins_linux : builtins ∩ linuxCommands = ∅.
Proof. refine (bool_decide_unpack _ _). vm_compute. exact I. Qed.

(** The order of the three tests, for any three tables. *)
Lemma precedence (B W L : gset string) (c : string) :
  B ∩ W = {[ "cls" ]} → B ∩ L = ∅ →
  let detect :=
    if bool_decide (c ∈ B) then AUTO_DETECT
    else if bool_decide (c ∈ W) then WINDOWS
    else if bool_decide (c ∈ L) then LINUX
    else AUTO_DETECT in
  (c ∈ W → c ≠ "cls" → detect = WINDOWS) ∧
  (c ∈ L → c ∉ W → detect = LINUX) ∧
  (c ∉ W → c ∉ L → detect = AUTO_DETECT).
Proof.
  intros Hbw Hbl detect. subst detect.
  assert (Hcls : c ∈ B → c ∈ W → c = "cls").
  { intros HB HW. apply (elem_of_singleton (C := gset string)).
    rewrite <- Hbw. by apply elem_of_intersection. }
  assert (Hnone : c ∈ B → c ∈ L → False).
  { intros HB HL. apply (not_elem_of_empty (C := gset string) c).
    rewrite <- Hbl. by apply elem_of_intersection. }
  repeat case_bool_decide; repeat split; intros; try reflexivity;
    try contradiction; exfalso; auto.
Qed.

(** C5, as amended.  The two tables are not disjoint: they share [cd],
    [find], [sort], [more], [ping] and [netstat].  [detectCommandType] tests
    the built-in table, then the Windows table, then the Linux table: every
    name of the Windows table but the built-in [cls] gives [WINDOWS], every
    name of the Linux table that is not in the Windows table gives [LINUX],
    every name in neither table gives [AUTO_DETECT], and so does [cls]. *)
Theorem C5_classifier_precedence :
  windowsCommands ∩ linuxCommands
    = {[ "cd"; "find"; "sort"; "more"; "ping"; "netstat" ]} ∧
  (∀ command, command ∈ windowsCommands → command ≠ "cls" →
     detectCommandType command = WINDOWS) ∧
  (∀ command, command ∈ linuxCommands → command ∉ windowsCommands →
     detectCommandType command = LINUX) ∧
  (∀ command, command ∉ windowsCommands → command ∉ linuxCommands →
     detectCommandType command = AUTO_DETECT) ∧
  detectCommandType "cls" = AUTO_DETECT.
Proof.
  split; [exact tables_overlap|].
  assert (Hall := fun c => precedence builtins windowsCommands linuxCommands
                             c builtins_windows builtins_linux).
  unfold detectCommandType, isBuiltinCommand, isWindowsCommand,
    isLinuxCommand.
  split; [|split; [|split]].
  - intros c. exact (proj1 (Hall c)).
  - intros c. exact (proj1 (proj2 (Hall c))).
  - intros c. exact (proj2 (proj2 (Hall c))).
  - vm_compute. reflexivity.
Qed.

(** C5: [dir], [ls] and a name in no table. *)
Lemma C5_classifier_precedence_witness :
  detectCommandType "dir" = WINDOWS ∧ detectCommandType "ls" = LINUX ∧
  detectCommandType "frobnicate" = AUTO_DETECT.
Proof.
  destruct C5_classifier_precedence as (_ & Hw & Hl & Hn & _).
  split; [|split].
  - apply Hw; [apply in_table; vm_compute; reflexivity | discriminate].
  - apply Hl; [apply in_table | apply not_in_table]; vm_compute; reflexivity.
  - apply Hn; apply not_in_table; vm_compute; reflexivity.
Defined.

(** C5 as stated fails: [sort] is in both tables and is classified
    [WINDOWS], not [LINUX]; [cls] is in the Windows table and is classified
    [AUTO_DETECT]. *)
Lemma C5_tables_overlap_counterexample :
  "sort" ∈ windowsCommands ∧ "sort" ∈ linuxCommands ∧
  detectCommandType "sort" = WINDOWS ∧
  "cls" ∈ windowsCommands ∧ detectCommandType "cls" = AUTO_DETECT.
Proof.
  repeat split; try (apply in_table); vm_compute; reflexivity.
Qed.
End ClassifierFacts.

(** ** The reaper *)

Section ReaperFacts.
Context `{WaitMacros}.

Lemma reap_id pid status job : job_id (reap pid status job) = job_id job.
Proof. unfold reap. repeat case_match; reflexivity. Qed.

Lemma reap_pid pid status job : job_pid (reap pid status job) = job_pid job.
Proof. unfold reap. repeat case_match; reflexivity. Qed.

Lemma reap_cmdline pid status job :
  job_cmdline (reap pid status job) = job_cmdline job.
Proof. unfold reap. repeat case_match; reflexivity. Qed.

Lemma reap_other pid status job :
  job_pid job ≠ pid → reap pid status job = job.
Proof.
  intros Hne. unfold reap.
  destruct (Z.eqb_spec (job_pid job) pid); [contradiction | reflexivity].
Qed.

Lemma reap_running pid status job :
  job_pid job = pid →
  job_running (reap pid status job) = running_after (job_running job) status.
Proof.
  intros <-. unfold reap, running_after. rewrite Z.eqb_refl. simpl.
  destruct (WIFEXITED status), (WIFSIGNALED status), (WIFSTOPPED status),
    (WIFCONTINUED status); reflexivity.
Qed.

Lemma sigchldHandler_fields pending : ∀ jobs : list Job,
  job_id <$> sigchldHandler pending jobs = job_id <$> jobs ∧
  job_pid <$> sigchldHandler pending jobs = job_pid <$> jobs ∧
  job_cmdline <$> sigchldHandler pending jobs = job_cmdline <$> jobs.
Proof.
  induction pending as [|[pid status] pending IH]; intros jobs; [done|].
  simpl. case_match; [|done].
  destruct (IH (reap pid status <$> jobs)) as (-> & -> & ->).
  rewrite <- !list_fmap_compose.
  split; [|split]; apply list_fmap_ext; intros ? job _; simpl.
  - apply reap_id.
  - apply reap_pid.
  - apply reap_cmdline.
Qed.

Lemma sigchldHandler_other pending : ∀ (jobs : list Job) k job,
  jobs !! k = Some job →
  (∀ pid status, (pid, status) ∈ pending → job_pid job ≠ pid) →
  sigchldHandler pending jobs !! k = Some job.
Proof.
  induction pending as [|[pid status] pending IH]; intros jobs k job Hk Hne;
    [done|].
  simpl. case_match; [|done].
  apply IH.
  - rewrite list_lookup_fmap, Hk. simpl. f_equal. apply reap_other.
    apply (Hne pid status). left.
  - intros p s Hin. apply (Hne p s). right. exact Hin.
Qed.

(** C9.  [sigchldHandler] keeps the table's length and every job's [id],
    [pid] and [cmdline]; a job whose pid is not among the reaped ones is
    unchanged; when no reaped pid is the pid of a job the whole table is
    unchanged. *)
Theorem C9_reaper_frame (pending : list (Z * Z)) (jobs : list Job) :
  job_id <$> sigchldHandler pending jobs = job_id <$> jobs ∧
  job_pid <$> sigchldHandler pending jobs = job_pid <$> jobs ∧
  job_cmdline <$> sigchldHandler pending jobs = job_cmdline <$> jobs ∧
  (∀ k job, jobs !! k = Some job →
     (∀ pid status, (pid, status) ∈ pending → job_pid job ≠ pid) →
     sigchldHandler pending jobs !! k = Some job) ∧
  ((∀ pid status job, (pid, status) ∈ pending → job ∈ jobs →
      job_pid job ≠ pid) →
   sigchldHandler pending jobs = jobs).
Proof.
  destruct (sigchldHandler_fields pending jobs) as (Hid & Hpid & Hcmd).
  split; [exact Hid|]. split; [exact Hpid|]. split; [exact Hcmd|].
  split; [apply sigchldHandler_other|].
  intros Hne. apply list_eq. intros k.
  destruct (jobs !! k) as [job|] eqn:Hk.
  - apply sigchldHandler_other; [exact Hk|].
    intros pid status Hin. apply (Hne pid status job Hin).
    by apply list_elem_of_lookup_2 with k.
  - apply lookup_ge_None. apply lookup_ge_None in Hk.
    assert (Hlen : length (job_id <$> sigchldHandler pending jobs)
                   = length (job_id <$> jobs)) by (by rewrite Hid).
    rewrite !length_fmap in Hlen. lia.
Qed.

(** C2, as amended.  A job has two states, the flag [running].  In a drain
    of notifications with positive pids, the flag of each job follows the
    notifications for its own pid, in order: exited, killed and stopped all
    give [false], continued gives [true], any other status leaves the flag.
    No value of the flag is final. *)
Theorem C2_reaper_flag (pending : list (Z * Z)) : ∀ (jobs : list Job) k job,
  Forall (fun r => 0 < r.1)%Z pending →
  jobs !! k = Some job →
  job_running <$> sigchldHandler pending jobs !! k =
    Some (foldl (fun r '(pid, status) =>
                   if Z.eqb (job_pid job) pid then running_after r status
                   else r)
                (job_running job) pending).
Proof.
  induction pending as [|[pid status] pending IH]; intros jobs k job Hpos Hk.
  - simpl. by rewrite Hk.
  - apply Forall_cons in Hpos as [Hp Hpos]. simpl in Hp. simpl.
    destruct (Z.ltb_spec 0 pid); [|lia].
    rewrite (IH _ k (reap pid status job) Hpos).
    + rewrite reap_pid. f_equal. f_equal.
      destruct (Z.eqb_spec (job_pid job) pid) as [Heq|Hne].
      * by apply reap_running.
      * by rewrite reap_other.
    + by rewrite list_lookup_fmap, Hk.
Qed.
End ReaperFacts.

(** C9: a notification for pid 200 leaves a table whose only job has pid
    100 as it is. *)
Lemma C9_reaper_frame_witness :
  @sigchldHandler linux_wait [(200, 0)%Z] [sample_job] = [sample_job].
Proof.
  apply (@C9_reaper_frame linux_wait [(200, 0)%Z] [sample_job]).
  intros pid status job Hin Hjob.
  apply list_elem_of_singleton in Hin. apply list_elem_of_singleton in Hjob.
  inversion Hin; subst. vm_compute. discriminate.
Defined.

(** C2: stopped by SIGSTOP (status 0x137f), then continued (0xffff). *)
Lemma C2_reaper_flag_witness :
  job_running <$> @sigchldHandler linux_wait [(100, 4991); (100, 65535)]%Z
                    [sample_job] !! 0%nat = Some true.
Proof.
  apply (@C2_reaper_flag linux_wait [(100, 4991); (100, 65535)]%Z
           [sample_job] 0%nat sample_job).
  - repeat constructor.
  - reflexivity.
Defined.

(** C2 as stated fails: an exit (status 0) and a stop (status 0x137f)
    leave the job in the same state, so Done and Stopped are not two states;
    and a job that has exited is running again after a continue
    notification, so that state is not final. *)
Lemma C2_two_states_counterexample :
  @WIFEXITED linux_wait 0 = true ∧ @WIFSTOPPED linux_wait 4991 = true ∧
  @WIFCONTINUED linux_wait 65535 = true ∧
  @sigchldHandler linux_wait [(100, 0)%Z] [sample_job]
    = @sigchldHandler linux_wait [(100, 4991)%Z] [sample_job] ∧
  job_running <$> @sigchldHandler linux_wait [(100, 0); (100, 65535)]%Z
                    [sample_job] = [true].
Proof. repeat split. Qed.

(** ** Worlds *)

Lemma add_events_advance es w : add_events es w = advance es [] 0 0 w.
Proof.
  destruct w. unfold add_events, advance. simpl.
  by rewrite app_nil_r, !Nat.add_0_r.
Qed.

Lemma advance_nil w : advance [] [] 0 0 w = w.
Proof.
  destruct w. unfold advance. simpl. by rewrite !app_nil_r, !Nat.add_0_r.
Qed.

Lemma advance_advance es1 cs1 dp1 df1 es2 cs2 dp2 df2 w :
  advance es2 cs2 dp2 df2 (advance es1 cs1 dp1 df1 w)
  = advance (es1 ++ es2) (cs1 ++ cs2) (dp1 + dp2) (df1 + df2) w.
Proof.
  destruct w. unfold advance. simpl. by rewrite !app_assoc, !Nat.add_assoc.
Qed.

Lemma add_events_nil w : add_events [] w = w.
Proof. rewrite add_events_advance. apply advance_nil. Qed.

Lemma add_events_app es1 es2 w :
  add_events es2 (add_events es1 w) = add_events (es1 ++ es2) w.
Proof. rewrite !add_events_advance, advance_advance. done. Qed.

(** ** Running code *)

Lemma bind_Ret {A B} (c : Proc A) (k : A → Proc B) w a w' :
  c w = (Ret a, w') → bind c k w = k a w'.
Proof. intros Hc. unfold bind. by rewrite Hc. Qed.

Lemma emit_run e w : emit e w = (Ret tt, add_events [e] w).
Proof. reflexivity. Qed.

Lemma bind_emit {B} e (k : unit → Proc B) w :
  bind (emit e) k w = k tt (add_events [e] w).
Proof. reflexivity. Qed.

Lemma bind_ret {A B} (a : A) (k : A → Proc B) w : bind (ret a) k w = k a w.
Proof. reflexivity. Qed.

Lemma open_run env path flags w :
  open env path flags w
  = (Ret (match sys_open env path flags with
          | Some fd => Z.of_N fd
          | None => (-1)%Z
          end),
     add_events [EvOpen path flags 420
                   (match sys_open env path flags with
                    | Some fd => Z.of_N fd
                    | None => (-1)%Z
                    end)] w).
Proof. reflexivity. Qed.

(** ** Loops that only issue events *)

Lemma for_each_emit {A} (f : A → event) (l : list A) w :
  for_each l (fun x => emit (f x)) w = (Ret tt, add_events (f <$> l) w).
Proof.
  revert w. induction l as [|x l IH]; intros w; cbn [for_each fmap list_fmap].
  - by rewrite add_events_nil.
  - rewrite bind_emit, IH. by rewrite add_events_app.
Qed.

(** ** Redirection *)

Section Redirection.
Context (env : Env).

Lemma handleRedirection_loop_scan fuel : ∀ i (args : list string) w,
  (length args - i ≤ fuel)%nat → (i ≤ length args)%nat →
  handleRedirection_loop env fuel i args w
  = (Ret (take i args ++ kept (drop i args)),
     add_events (performed (drop i args) ≫= redirection_events env) w).
Proof.
  induction fuel as [|fuel IH]; intros i args w Hfuel Hi.
  - cbn [handleRedirection_loop]. rewrite drop_ge, take_ge by lia.
    cbn [kept performed mbind list_bind].
    by rewrite app_nil_r, add_events_nil.
  - cbn [handleRedirection_loop]. destruct (args !! i) as [a|] eqn:Ha.
    + pose proof (lookup_lt_Some _ _ _ Ha) as Hlt.
      rewrite (drop_S _ _ _ Ha). cbn [kept performed].
      destruct (is_redirection a) eqn:Hred.
      * destruct (args !! (i + 1)) as [path|] eqn:Hp.
        -- pose proof (lookup_lt_Some _ _ _ Hp) as Hlt'.
           replace (S i) with (i + 1) by lia.
           rewrite (drop_S _ _ _ Hp).
           cbn [kept performed mbind list_bind].
           rewrite (bind_Ret _ _ _ _ _ (open_run env path _ w)).
           assert (Hdup : ∀ fd,
             (if String.eqb a "<" then dup2 fd STDIN_FILENO
              else dup2 fd STDOUT_FILENO)
             = emit (EvDup2 fd (redirection_target a))).
           { intros fd. unfold redirection_target.
             by destruct (String.eqb a "<"). }
           rewrite Hdup, bind_emit. unfold close. rewrite bind_emit.
           rewrite IH.
           ++ rewrite take_app_le, take_take by (rewrite length_take; lia).
              rewrite Nat.min_id.
              rewrite drop_app_ge by (rewrite length_take; lia).
              rewrite length_take, Nat.min_l, Nat.sub_diag by lia.
              rewrite drop_0.
              replace (S (i + 1)) with (i + 2) by lia.
              rewrite !add_events_app. reflexivity.
           ++ rewrite length_app, length_take, length_drop. lia.
           ++ rewrite length_app, length_take, length_drop. lia.
        -- apply lookup_ge_None in Hp.
           replace (S i) with (i + 1) by lia.
           rewrite (drop_ge args (i + 1)) by lia.
           rewrite IH by lia.
           rewrite (drop_ge args (i + 1)) by lia.
           cbn [kept performed mbind list_bind].
           rewrite app_nil_r.
           replace (i + 1) with (S i) by lia.
           by rewrite (take_S_r _ _ _ Ha).
      * replace (i + 1) with (S i) by lia. rewrite IH by lia.
        rewrite (take_S_r _ _ _ Ha), <- app_assoc. done.
    + apply lookup_ge_None in Ha.
      rewrite drop_ge, take_ge by lia.
      cbn [kept performed mbind list_bind].
      by rewrite app_nil_r, add_events_nil.
Qed.

Lemma handleRedirection_scan (args : list string) w :
  handleRedirection env args w
  = (Ret (kept args),
     add_events (performed args ≫= redirection_events env) w).
Proof.
  unfold handleRedirection.
  rewrite handleRedirection_loop_scan by lia. by rewrite take_0, drop_0.
Qed.

(** More fuel than the length of [args] changes nothing. *)
Lemma handleRedirection_loop_fuel fuel (args : list string) w :
  (length args ≤ fuel)%nat →
  handleRedirection_loop env fuel 0 args w = handleRedirection env args w.
Proof.
  intros Hfuel. unfold handleRedirection.
  by rewrite !handleRedirection_loop_scan by lia.
Qed.
End Redirection.


(** ** The children *)

Section Children.
Context (env : Env).

Lemma execvp_run (args : list string) w :
  execvp env args w =
    match args with
    | [] => (Undefined "execvp(nullptr, argv)", w)
    | _ :: _ =>
        match sys_execvp env args with
        | None => (Replaced args, add_events [EvExecvp args None] w)
        | Some err => (Ret err, add_events [EvExecvp args (Some err)] w)
        end
    end.
Proof.
  destruct args as [|a args]; [reflexivity|].
  unfold execvp. by destruct (sys_execvp env (a :: args)).
Qed.

Lemma wiring_run n i (pipefds : list Z) {B} (k : unit → Proc B) w :
  ((if Nat.ltb 0 i then dup2 (pipefds !!! ((i - 1) * 2)) STDIN_FILENO
    else ret tt) >>
   (if Nat.ltb i (n - 1) then dup2 (pipefds !!! (i * 2 + 1)) STDOUT_FILENO
    else ret tt) >>
   for_each (seq 0 (2 * (n - 1))) (fun j => close (pipefds !!! j)) >>
   k tt) w
  = k tt (add_events (wiring n i pipefds) w).
Proof.
  unfold wiring, dup2, close.
  destruct (Nat.ltb 0 i), (Nat.ltb i (n - 1));
    repeat (rewrite bind_emit || rewrite bind_ret);
    rewrite (bind_Ret _ _ _ _ _
               (for_each_emit (fun j => EvClose (pipefds !!! j)) _ _));
    rewrite ?add_events_app; reflexivity.
Qed.

(** What a stage of a pipeline does, from [fork] to its end. *)
Lemma pipeline_child_run n i (pipefds : list Z) (command : string) w :
  pipeline_child env n i pipefds command w =
    let args := kept (tokenize command) in
    let es := wiring n i pipefds ++
              (performed (tokenize command) ≫= redirection_events env) in
    match args with
    | [] => (Undefined "execvp(nullptr, argv)", add_events es w)
    | _ :: _ =>
        match sys_execvp env args with
        | None => (Replaced args, add_events (es ++ [EvExecvp args None]) w)
        | Some err =>
            (Exited 1,
             add_events (es ++ [EvExecvp args (Some err);
                                EvPerror "exec failed" err; EvExit 1]) w)
        end
    end.
Proof.
  unfold pipeline_child.
  rewrite (wiring_run n i pipefds
             (fun _ => args <- handleRedirection env (tokenize command) ;;
                       err <- execvp env args ;;
                       perror "exec failed" err >> exit 1)).
  rewrite (bind_Ret _ _ _ _ _ (handleRedirection_scan env _ _)).
  rewrite add_events_app.
  cbv zeta. unfold bind at 1. rewrite execvp_run.
  destruct (kept (tokenize command)) as [|a0 args]; [reflexivity|].
  destruct (sys_execvp env (a0 :: args)) as [err|].
  - unfold perror. rewrite bind_emit. unfold exit.
    rewrite !add_events_app. reflexivity.
  - rewrite add_events_app. reflexivity.
Qed.

Lemma suggest_run cmd w :
  ∃ es, suggest cmd w = (Ret tt, add_events es w) ∧
        Forall (fun e => ∃ l, e = EvCout l) es.
Proof.
  unfold suggest. destruct (foldl _ _ _) as [best bestDist].
  destruct (Z.leb bestDist 2).
  - eexists. split; [reflexivity|]. repeat constructor. by eexists.
  - exists []. split; [by rewrite add_events_nil | constructor].
Qed.

(** What the child of a single command does. *)
Lemma command_child_run (args : list string) w :
  ∃ hints,
    Forall (fun e => ∃ l, e = EvCout l) hints ∧
    command_child env args w =
      let es := performed args ≫= redirection_events env in
      match kept args with
      | [] => (Undefined "execvp(nullptr, argv)", add_events es w)
      | a0 :: _ =>
          match sys_execvp env (kept args) with
          | None =>
              (Replaced (kept args),
               add_events (es ++ [EvExecvp (kept args) None]) w)
          | Some err =>
              (Exited 1,
               add_events
                 (es ++ [EvExecvp (kept args) (Some err);
                         EvCerr [Str "Error: `"; Str a0; Str "`: ";
                                 Str err; Str NL]]
                     ++ hints ++ [EvExit 1]) w)
          end
      end.
Proof.
  unfold command_child.
  destruct (kept args) as [|a0 args'] eqn:Hkept.
  - exists []. split; [constructor|].
    rewrite (bind_Ret _ _ _ _ _ (handleRedirection_scan env _ _)).
    rewrite Hkept. reflexivity.
  - destruct (sys_execvp env (a0 :: args')) as [err|] eqn:Hexec.
    + destruct (suggest_run a0
                  (add_events [EvCerr [Str "Error: `"; Str a0; Str "`: ";
                                       Str err; Str NL]]
                     (add_events [EvExecvp (a0 :: args') (Some err)]
                        (add_events
                           (performed args ≫= redirection_events env) w))))
        as (hints & Hrun & Hhints).
      exists hints. split; [exact Hhints|].
      rewrite (bind_Ret _ _ _ _ _ (handleRedirection_scan env _ _)).
      rewrite Hkept. unfold bind at 1. rewrite execvp_run, Hexec.
      unfold cerr. rewrite bind_emit.
      change ((a0 :: args') !!! 0) with a0.
      rewrite (bind_Ret _ _ _ _ _ Hrun). unfold exit.
      cbv zeta. rewrite !add_events_app. rewrite <- ?app_assoc. reflexivity.
    + exists []. split; [constructor|].
      rewrite (bind_Ret _ _ _ _ _ (handleRedirection_scan env _ _)).
      rewrite Hkept. unfold bind at 1. rewrite execvp_run, Hexec.
      cbv zeta. rewrite add_events_app. reflexivity.
Qed.

(** A child never falls through into the code of the parent: it is replaced
    by the program, or exits, or its behaviour is undefined. *)
Lemma pipeline_child_never_returns n i (pipefds : list Z) command w u :
  (pipeline_child env n i pipefds command w).1 ≠ Ret u.
Proof.
  rewrite pipeline_child_run. cbv zeta.
  destruct (kept (tokenize command)); [discriminate|].
  destruct (sys_execvp env _); discriminate.
Qed.

Lemma command_child_never_returns (args : list string) w u :
  (command_child env args w).1 ≠ Ret u.
Proof.
  destruct (command_child_run args w) as (hints & _ & ->). cbv zeta.
  destruct (kept args); [discriminate|].
  destruct (sys_execvp env _); discriminate.
Qed.

(** The failure path of a stage, for any stage and any kernel: the text of
    the diagnostic does not depend on the command. *)
Lemma pipeline_child_exec_failure n i (pipefds : list Z) command err w :
  kept (tokenize command) ≠ [] →
  sys_execvp env (kept (tokenize command)) = Some err →
  pipeline_child env n i pipefds command w
  = (Exited 1,
     add_events
       ((wiring n i pipefds ++
         (performed (tokenize command) ≫= redirection_events env)) ++
        [EvExecvp (kept (tokenize command)) (Some err);
         EvPerror "exec failed" err; EvExit 1]) w).
Proof.
  intros Hargs Hexec. rewrite pipeline_child_run. cbv zeta.
  destruct (kept (tokenize command)); [done|]. by rewrite Hexec.
Qed.

Lemma redirection_events_quiet (rs : list (string * string)) :
  Forall (fun e => is_report e = false) (rs ≫= redirection_events env).
Proof.
  induction rs as [|r rs IH]; [constructor|].
  cbn [mbind list_bind]. apply Forall_app. split; [|exact IH].
  repeat constructor.
Qed.

Lemma wiring_quiet n i (pipefds : list Z) :
  Forall (fun e => is_report e = false) (wiring n i pipefds).
Proof.
  unfold wiring. repeat (apply Forall_app; split).
  - case_match; repeat constructor.
  - case_match; repeat constructor.
  - apply Forall_fmap, Forall_forall. reflexivity.
Qed.
End Children.


(** ** The parent of a pipeline *)

Section Pipelines.
Context (env : Env).

Lemma pipe_run (pipefds : list Z) at_ w :
  pipe env pipefds at_ w =
    (Ret (match sys_pipe env (npipe w) with
          | Some (rd, wr) =>
              <[S at_ := Z.of_N wr]> (<[at_ := Z.of_N rd]> pipefds)
          | None => pipefds
          end),
     advance [EvPipe (sys_pipe env (npipe w))] [] 1 0 w).
Proof.
  unfold pipe.
  assert (Hw : add_events [EvPipe (sys_pipe env (npipe w))] (count_pipe w)
               = advance [EvPipe (sys_pipe env (npipe w))] [] 1 0 w).
  { destruct w. unfold add_events, count_pipe, advance. simpl.
    f_equal; [by rewrite app_nil_r | lia | lia]. }
  rewrite Hw. by destruct (sys_pipe env (npipe w)) as [[rd wr]|].
Qed.

Lemma pipe_loop_run m : ∀ a (pipefds : list Z) w,
  for_fold (seq a m) pipefds (fun i pipefds => pipe env pipefds (i * 2)) w
  = (Ret (store_pipes (sys_pipe env <$> seq (npipe w) m) a pipefds),
     advance (EvPipe <$> (sys_pipe env <$> seq (npipe w) m)) [] m 0 w).
Proof.
  induction m as [|m IH]; intros a pipefds w.
  - cbn [seq for_fold fmap list_fmap store_pipes].
    by rewrite advance_nil.
  - cbn [seq for_fold fmap list_fmap store_pipes].
    rewrite (bind_Ret _ _ _ _ _ (pipe_run _ _ _)), IH.
    rewrite advance_advance.
    replace (npipe (advance [EvPipe (sys_pipe env (npipe w))] [] 1 0 w))
      with (S (npipe w)) by (destruct w; simpl; lia).
    reflexivity.
Qed.

Lemma fork_run (child : Proc unit) w :
  ∃ cs,
    fork env child w
    = (Ret (fork_ret (sys_fork env (nfork w))),
       advance [EvFork (fork_ret (sys_fork env (nfork w)))] cs 0 1 w) ∧
    child_pid <$> cs = Z.pos <$> option_list (sys_fork env (nfork w)).
Proof.
  unfold fork. destruct (sys_fork env (nfork w)) as [p|].
  - destruct (child (child_image w)) as [e wc].
    exists [{| child_pid := Z.pos p; child_trace := trace wc;
               child_end := e |}].
    split; [|reflexivity].
    f_equal. destruct w. unfold add_child, add_events, count_fork, advance.
    simpl. f_equal; lia.
  - exists []. split; [|reflexivity].
    f_equal. destruct w. unfold add_events, count_fork, advance. simpl.
    f_equal; [by rewrite app_nil_r | lia | lia].
Qed.

Lemma fork_loop_run (body : nat → Proc unit) m : ∀ a w,
  ∃ cs,
    for_each (seq a m) (fun i => fork env (body i) >> ret tt) w
    = (Ret tt,
       advance (EvFork <$> (fork_ret <$> (sys_fork env <$> seq (nfork w) m)))
         cs 0 m w) ∧
    child_pid <$> cs = Z.pos <$> omap (sys_fork env) (seq (nfork w) m).
Proof.
  induction m as [|m IH]; intros a w.
  - exists []. split; [|reflexivity].
    cbn [seq for_each fmap list_fmap]. by rewrite advance_nil.
  - destruct (fork_run (body a) w) as (c1 & Hfork & Hc1).
    destruct (IH (S a)
                (advance [EvFork (fork_ret (sys_fork env (nfork w)))] c1 0 1
                   w)) as (cs & Hloop & Hcs).
    exists (c1 ++ cs). split.
    + cbn [seq for_each].
      assert (Hstep :
        (fork env (body a) >> ret tt) w
        = (Ret tt,
           advance [EvFork (fork_ret (sys_fork env (nfork w)))] c1 0 1 w))
        by (unfold bind; by rewrite Hfork).
      rewrite (bind_Ret _ _ _ _ _ Hstep), Hloop, advance_advance.
      replace (nfork (advance [EvFork (fork_ret (sys_fork env (nfork w)))]
                        c1 0 1 w))
        with (S (nfork w)) by (destruct w; simpl; lia).
      reflexivity.
    + rewrite fmap_app, Hc1, Hcs.
      replace (nfork (advance [EvFork (fork_ret (sys_fork env (nfork w)))]
                        c1 0 1 w))
        with (S (nfork w)) by (destruct w; simpl; lia).
      cbn [seq omap list_omap].
      destruct (sys_fork env (nfork w)); reflexivity.
Qed.

Lemma length_store_pipes rs : ∀ i (pipefds : list Z),
  length (store_pipes rs i pipefds) = length pipefds.
Proof.
  induction rs as [|[[rd wr]|] rs IH]; intros i pipefds;
    cbn [store_pipes]; [done| |done].
  by rewrite IH, !length_insert.
Qed.

Lemma lookup_total_seq (l : list Z) :
  (fun j => l !!! j) <$> seq 0 (length l) = l.
Proof.
  apply list_eq. intros j. rewrite list_lookup_fmap.
  destruct (l !! j) as [x|] eqn:Hj.
  - rewrite lookup_seq_lt by (by eapply lookup_lt_Some). simpl.
    f_equal. by apply list_lookup_total_correct.
  - apply lookup_ge_None in Hj. by rewrite lookup_seq_ge.
Qed.

(** The parent of a pipeline, whatever the kernel answers. *)
Lemma executePipeline_run (commands : list string) w :
  let n := length commands in
  let pipes := sys_pipe env <$> seq (npipe w) (n - 1) in
  let pipefds :=
    store_pipes pipes 0 (stack_garbage env <$> seq 0 (2 * (n - 1))) in
  ∃ cs,
    executePipeline env commands w
    = (Ret tt,
       advance ((EvPipe <$> pipes) ++
                (EvFork <$> (fork_ret <$> (sys_fork env <$> seq (nfork w) n)))
                ++ (EvClose <$> pipefds) ++ replicate n EvWait)
         cs (n - 1) n w) ∧
    child_pid <$> cs = Z.pos <$> omap (sys_fork env) (seq (nfork w) n).
Proof.
  intros n pipes pipefds.
  destruct (fork_loop_run
              (fun i => pipeline_child env n i pipefds (commands !!! i))
              n 0 (advance (EvPipe <$> pipes) [] (n - 1) 0 w))
    as (cs & Hforks & Hcs).
  assert (Hnf : nfork (advance (EvPipe <$> pipes) [] (n - 1) 0 w) = nfork w)
    by (destruct w; simpl; lia).
  rewrite Hnf in Hforks, Hcs.
  exists cs. split; [|exact Hcs].
  unfold executePipeline. fold n.
  rewrite (bind_Ret _ _ _ _ _ (pipe_loop_run _ _ _ _)).
  fold pipes. fold pipefds.
  rewrite (bind_Ret _ _ _ _ _ Hforks).
  unfold close, wait.
  rewrite (bind_Ret _ _ _ _ _
             (for_each_emit (fun j => EvClose (pipefds !!! j)) _ _)).
  rewrite (for_each_emit (fun _ => EvWait)).
  rewrite !add_events_advance, !advance_advance.
  assert (Hlen : length pipefds = 2 * (n - 1)).
  { unfold pipefds. by rewrite length_store_pipes, length_fmap, length_seq. }
  assert (Hcloses :
    (fun j => EvClose (pipefds !!! j)) <$> seq 0 (2 * (n - 1))
    = EvClose <$> pipefds).
  { rewrite <- Hlen.
    transitivity
      (EvClose <$> ((fun j => pipefds !!! j) <$> seq 0 (length pipefds))).
    - by rewrite <- list_fmap_compose.
    - by rewrite lookup_total_seq. }
  assert (Hwaits : ∀ a m, (fun _ : nat => EvWait) <$> seq a m
                          = replicate m EvWait).
  { intros a m. revert a. induction m as [|m IH]; intros a; [done|].
    cbn [seq fmap list_fmap replicate]. f_equal. apply IH. }
  rewrite Hcloses, Hwaits.
  f_equal. f_equal.
  - by rewrite app_nil_l, !app_nil_r.
  - lia.
  - lia.
Qed.

Lemma store_pipes_all (ps : list (N * N)) : ∀ a (pre mid post : list Z),
  length pre = a * 2 → length mid = 2 * length ps →
  store_pipes (Some <$> ps) a (pre ++ mid ++ post)
  = pre ++ pipe_descriptors ps ++ post.
Proof.
  induction ps as [|[rd wr] ps IH]; intros a pre mid post Hpre Hmid.
  - destruct mid; [reflexivity | discriminate].
  - destruct mid as [|x [|y mid]]; try (simpl in Hmid; lia).
    cbn [fmap list_fmap store_pipes].
    rewrite insert_app_r_alt by lia.
    rewrite (insert_app_r_alt pre) by lia.
    replace (a * 2 - length pre) with 0 by lia.
    replace (S (a * 2) - length pre) with 1 by lia.
    cbn [insert list_insert app].
    change (pre ++ Z.of_N rd :: Z.of_N wr :: mid ++ post)
      with (pre ++ [Z.of_N rd; Z.of_N wr] ++ mid ++ post).
    rewrite (app_assoc pre).
    rewrite (IH (S a)).
    + unfold pipe_descriptors. cbn [mbind list_bind].
      by rewrite <- !app_assoc.
    + rewrite length_app. simpl. lia.
    + simpl in Hmid. lia.
Qed.

Lemma mapM_fmap_Some {A B} (f : A → option B) (l : list A) (k : list B) :
  mapM f l = Some k → f <$> l = Some <$> k ∧ omap f l = k.
Proof.
  intros Hm. apply mapM_Some_1 in Hm.
  induction Hm as [|x y l k Hxy Hm [IH1 IH2]]; [done|].
  cbn [fmap list_fmap omap list_omap]. rewrite Hxy, IH1, IH2. done.
Qed.
End Pipelines.


(** ** Job control built-ins *)

Lemma jobs_add_events es w : jobs (add_events es w) = jobs w.
Proof. reflexivity. Qed.

Lemma set_jobs_add_events js es1 es2 w :
  set_jobs js (add_events es2 (add_events es1 w))
  = set_jobs js (add_events (es1 ++ es2) w).
Proof. by rewrite add_events_app. Qed.

Lemma bind_get {A B} (f : World → A) (k : A → Proc B) w :
  bind (get f) k w = k (f w) w.
Proof. reflexivity. Qed.

Section JobBuiltins.

Lemma fg_bg_run (cmd s : string) jid w :
  cmd = "fg" ∨ cmd = "bg" →
  stoi s = inr jid →
  handleJobBuiltins [cmd; s] w =
    match list_find (fun job => job_id job = jid) (jobs w) with
    | Some (k, it) =>
        (Ret true,
         if String.eqb cmd "fg"
         then set_jobs (delete k (jobs w))
                (add_events [EvKill (job_pid it) SIGCONT;
                             EvWaitpid (job_pid it) 0] w)
         else set_jobs (<[k := set_running true it]> (jobs w))
                (add_events [EvKill (job_pid it) SIGCONT] w))
    | None =>
        (Ret true,
         add_events [EvCerr [Str cmd; Str ": job not found: "; Num jid;
                             Str NL]] w)
    end.
Proof.
  intros Hcmd Hstoi. unfold handleJobBuiltins.
  assert (Htest : String.eqb cmd "jobs" = false
                  ∧ (String.eqb cmd "fg" || String.eqb cmd "bg") = true)
    by (destruct Hcmd as [-> | ->]; split; reflexivity).
  destruct Htest as [-> ->].
  cbn [length Nat.eqb andb].
  change ([cmd; s] !!! 1) with s. rewrite Hstoi.
  rewrite bind_get.
  destruct (list_find _ (jobs w)) as [[k it]|].
  - unfold kill, waitpid, modify. rewrite bind_emit.
    destruct (String.eqb cmd "fg").
    + unfold bind, emit, ret. cbn [jobs add_events].
      by rewrite set_jobs_add_events.
    + reflexivity.
  - unfold cerr. rewrite bind_emit. reflexivity.
Qed.
End JobBuiltins.

(** ** The scan of redirections *)

Lemma scan_word x (l : list string) :
  is_redirection x = false →
  kept (x :: l) = x :: kept l ∧ performed (x :: l) = performed l ∧
  dangling (x :: l) = dangling l.
Proof. intros Hx. cbn [kept performed dangling]. by rewrite Hx. Qed.

Lemma scan_operator x path (l : list string) :
  is_redirection x = true →
  kept (x :: path :: l) = kept l ∧
  performed (x :: path :: l) = (x, path) :: performed l ∧
  dangling (x :: path :: l) = dangling l.
Proof. intros Hx. cbn [kept performed dangling]. by rewrite Hx. Qed.

Lemma scan_snoc (op : string) :
  is_redirection op = true →
  ∀ pre : list string,
    (dangling pre = false →
     kept (pre ++ [op]) = kept pre ++ [op] ∧
     performed (pre ++ [op]) = performed pre) ∧
    (∀ x, dangling (x :: pre) = false →
     kept ((x :: pre) ++ [op]) = kept (x :: pre) ++ [op] ∧
     performed ((x :: pre) ++ [op]) = performed (x :: pre)).
Proof.
  intros Hop. induction pre as [|a pre [IH1 IH2]].
  - split.
    + intros _. cbn [app kept performed]. by rewrite Hop.
    + intros x. cbn [app kept performed dangling].
      destruct (is_redirection x); [discriminate|]. by rewrite Hop.
  - split; [apply IH2|].
    intros x. destruct (is_redirection x) eqn:Hx.
    + change ((x :: a :: pre) ++ [op]) with (x :: a :: (pre ++ [op])).
      destruct (scan_operator x a pre Hx) as (-> & -> & ->).
      destruct (scan_operator x a (pre ++ [op]) Hx) as (-> & -> & _).
      intros Hd. destruct (IH1 Hd) as [-> ->]. done.
    + change ((x :: a :: pre) ++ [op]) with (x :: ((a :: pre) ++ [op])).
      destruct (scan_word x (a :: pre) Hx) as (-> & -> & ->).
      destruct (scan_word x ((a :: pre) ++ [op]) Hx) as (-> & -> & _).
      intros Hd. destruct (IH2 a Hd) as [-> ->]. done.
Qed.

Lemma dangling_last (pre : list string) x :
  last pre = Some x → is_redirection x = false → dangling pre = false.
Proof.
  intros Hlast Hx.
  assert (Hboth : ∀ l : list string,
             (∀ y, last l = Some y → is_redirection y = false →
                   dangling l = false) ∧
             (∀ z y, last (z :: l) = Some y → is_redirection y = false →
                     dangling (z :: l) = false)).
  { induction l as [|a l [IH1 IH2]].
    - split; [discriminate|].
      intros z y [= ->] Hy. cbn [dangling]. by rewrite Hy.
    - split; [apply IH2|].
      intros z y Hl Hy. cbn [dangling].
      destruct (is_redirection z).
      + destruct l as [|b l]; [reflexivity|]. apply (IH1 y); [|exact Hy].
        exact Hl.
      + apply (IH2 a y); [|exact Hy]. exact Hl. }
  by apply (proj1 (Hboth pre) x).
Qed.


(** ** The claims about pipelines *)

(** C4.  For a pipeline of [n >= 2] stages, when the [n - 1] calls of [pipe]
    succeed and return [pipes] and the [n] calls of [fork] succeed and
    return [pids] (the two [mapM] hypotheses): the parent issues exactly the
    [n - 1] [pipe] calls, then the [n] [fork] calls, then closes exactly the
    [2 * (n - 1)] descriptors the pipes returned, in the order of
    [pipefds], then calls [wait] [n] times; [n] children exist, with the
    pids [fork] returned.  [executePipeline_run] gives the same sequence of
    calls when some of them fail. *)
Theorem C4_pipeline_resources (env : Env) (commands : list string) w
    (pipes : list (N * N)) (pids : list positive) :
  let n := length commands in
  2 ≤ n →
  mapM (sys_pipe env) (seq (npipe w) (n - 1)) = Some pipes →
  mapM (sys_fork env) (seq (nfork w) n) = Some pids →
  ∃ cs,
    executePipeline env commands w
    = (Ret tt,
       advance (((fun p => EvPipe (Some p)) <$> pipes) ++
                ((fun p => EvFork (Z.pos p)) <$> pids) ++
                (EvClose <$> pipe_descriptors pipes) ++
                replicate n EvWait)
         cs (n - 1) n w) ∧
    length pipes = n - 1 ∧
    length (pipe_descriptors pipes) = 2 * (n - 1) ∧
    length pids = n ∧
    child_pid <$> cs = Z.pos <$> pids.
Proof.
  intros n Hn Hpipes Hforks.
  destruct (executePipeline_run env commands w) as (cs & Hrun & Hcs).
  fold n in Hrun, Hcs.
  assert (Hlp : length pipes = n - 1)
    by (apply length_mapM in Hpipes; by rewrite length_seq in Hpipes).
  assert (Hlf : length pids = n)
    by (apply length_mapM in Hforks; by rewrite length_seq in Hforks).
  apply mapM_fmap_Some in Hpipes as [Hpipes _].
  apply mapM_fmap_Some in Hforks as [Hforks Homap].
  rewrite Hpipes, Hforks, Homap in *.
  assert (Hfds :
    store_pipes (Some <$> pipes) 0 (stack_garbage env <$> seq 0 (2 * (n - 1)))
    = pipe_descriptors pipes).
  { pose proof (store_pipes_all pipes 0 []
                  (stack_garbage env <$> seq 0 (2 * (n - 1))) []) as Hs.
    rewrite app_nil_l, !app_nil_r in Hs. apply Hs; [reflexivity|].
    rewrite length_fmap, length_seq. lia. }
  rewrite Hfds in Hrun.
  exists cs.
  split; [|split; [exact Hlp|split; [|split; [exact Hlf|exact Hcs]]]].
  - rewrite Hrun. rewrite <- !list_fmap_compose. reflexivity.
  - rewrite <- Hfds, length_store_pipes, length_fmap, length_seq. reflexivity.
Qed.

(** C4: three stages. *)
Lemma C4_pipeline_resources_witness :
  ∃ cs,
    executePipeline sample_env ["sleep 5 "; " cat"; " wc"] initial_world
    = (Ret tt,
       advance [EvPipe (Some (3, 4)%N); EvPipe (Some (5, 6)%N);
                EvFork 100; EvFork 101; EvFork 102;
                EvClose 3; EvClose 4; EvClose 5; EvClose 6;
                EvWait; EvWait; EvWait]
         cs 2 3 initial_world) ∧
    length [(3, 4)%N; (5, 6)%N] = 2 ∧
    length (pipe_descriptors [(3, 4)%N; (5, 6)%N]) = 4 ∧
    length [100; 101; 102]%positive = 3 ∧
    child_pid <$> cs = [100; 101; 102]%Z.
Proof.
  apply (C4_pipeline_resources sample_env ["sleep 5 "; " cat"; " wc"]
           initial_world [(3, 4)%N; (5, 6)%N] [100; 101; 102]%positive).
  - simpl. lia.
  - reflexivity.
  - reflexivity.
Defined.

Lemma runCommand_pipeline (env : Env) (input : string) w c :
  back input = Some c →
  let line := if Ascii.eqb c "&"%char then pop_back input else input in
  1 < length (splitByPipe line) →
  runCommand env input w = executePipeline env (splitByPipe line) w.
Proof.
  intros Hback line Hparts. unfold runCommand. rewrite Hback. fold line.
  apply Nat.ltb_lt in Hparts. by rewrite Hparts.
Qed.

(** The single-command path does what the pipeline path leaves out: with a
    trailing [&] it records the job and does not wait. *)
Lemma background_command_is_recorded :
  runCommand sample_env "sleep 5 &" initial_world
  = (Ret tt,
     {| jobs := [sample_job]; nextJobId := 2; history := [];
        trace := [EvFork 100;
                  EvCout [Str "["; Num 1; Str "] "; Num 100; Str NL]];
        children := [ {| child_pid := 100;
                         child_trace := [EvExecvp ["sleep"; "5"] None];
                         child_end := Replaced ["sleep"; "5"] |} ];
        npipe := 0; nfork := 1 |}).
Proof. vm_compute. reflexivity. Qed.

(** C1, what the code does instead of the claim.  For an input line that
    ends in [&] and splits into two or more stages, [runCommand] returns
    only after one [wait] per stage, and [jobs] and [nextJobId] are what
    they were: no job is recorded. *)
Theorem C1_background_pipeline_is_waited_for (env : Env) (input : string) w :
  back input = Some "&"%char →
  2 ≤ length (splitByPipe (pop_back input)) →
  ∃ w' es,
    runCommand env input w = (Ret tt, w') ∧
    jobs w' = jobs w ∧
    nextJobId w' = nextJobId w ∧
    trace w' = trace w ++ es ++
               replicate (length (splitByPipe (pop_back input))) EvWait.
Proof.
  intros Hback Hparts.
  rewrite (runCommand_pipeline env input w _ Hback) by (simpl; lia).
  cbn [Ascii.eqb Bool.eqb].
  destruct (executePipeline_run env (splitByPipe (pop_back input)) w)
    as (cs & Hrun & _).
  cbv zeta in Hrun.
  match type of Hrun with
  | _ = (_, advance (?A ++ ?B ++ ?C ++ _) _ _ _ _) =>
      eexists _, (A ++ B ++ C)
  end.
  split; [exact Hrun|].
  split; [reflexivity|]. split; [reflexivity|].
  cbn [trace advance]. by rewrite <- !app_assoc.
Qed.

(** C1: the line [sleep 5 | cat &]. *)
Lemma C1_background_pipeline_is_waited_for_witness :
  ∃ w' es,
    runCommand sample_env "sleep 5 | cat &" initial_world = (Ret tt, w') ∧
    jobs w' = [] ∧ nextJobId w' = 1%Z ∧
    trace w' = [] ++ es ++ [EvWait; EvWait].
Proof.
  apply (C1_background_pipeline_is_waited_for sample_env "sleep 5 | cat &"
           initial_world).
  - reflexivity.
  - vm_compute. lia.
Defined.

(** ** How a command line can end *)

Lemma handleBuiltins_ends (env : Env) (args : list string) w :
  ∃ es,
    (∃ b, handleBuiltins env args w = (Ret b, add_events es w)) ∨
    handleBuiltins env args w = (Exited 0, add_events es w).
Proof.
  unfold handleBuiltins. destruct args as [|a0 args].
  - exists []. left. exists true. by rewrite add_events_nil.
  - destruct (String.eqb a0 "cd").
    { rewrite bind_emit. destruct (sys_chdir env _) as [err|].
      - unfold perror. rewrite bind_emit. eexists. left. exists true.
        unfold ret. by rewrite add_events_app.
      - rewrite bind_ret. eexists. left. by exists true. }
    destruct (String.eqb a0 "export").
    { destruct (Nat.eqb _ 2); unfold cerr; rewrite bind_emit;
        eexists; left; by exists true. }
    destruct (String.eqb a0 "history").
    { rewrite bind_get. unfold cout.
      rewrite (bind_Ret _ _ _ _ _
                 (for_each_emit
                    (fun i => EvCout [Num (Z.of_nat i + 1); Str "  ";
                                      Str (history w !!! i); Str NL]) _ _)).
      eexists. left. by exists true. }
    destruct (String.eqb a0 "help").
    { unfold cout. rewrite bind_emit. eexists. left. by exists true. }
    destruct (String.eqb a0 "exit" || String.eqb a0 "$Q").
    { eexists. by right. }
    exists []. left. exists false. by rewrite add_events_nil.
Qed.

Lemma handleJobBuiltins_ends (args : list string) w :
  (∃ b w', handleJobBuiltins args w = (Ret b, w')) ∨
  (∃ cmd s e, args = [cmd; s] ∧ (cmd = "fg" ∨ cmd = "bg") ∧
              stoi s = inl e ∧
              handleJobBuiltins args w = (Thrown e, w)).
Proof.
  unfold handleJobBuiltins. destruct args as [|a0 args].
  - left. by eexists _, _.
  - destruct (String.eqb a0 "jobs").
    { left. rewrite bind_get. unfold cout.
      rewrite (bind_Ret _ _ _ _ _
                 (for_each_emit
                    (fun job =>
                       EvCout [Str "["; Num (job_id job); Str "] ";
                               Str (if job_running job then "Running"
                                    else "Stopped/Done");
                               Str "  "; Str (job_cmdline job); Str NL])
                    _ _)).
      by eexists _, _. }
    destruct ((String.eqb a0 "fg" || String.eqb a0 "bg")
              && Nat.eqb (length (a0 :: args)) 2) eqn:Htest.
    + apply andb_true_iff in Htest as [Hcmd Hlen].
      apply Nat.eqb_eq in Hlen.
      destruct args as [|s [|? ?]]; try discriminate.
      change ([a0; s] !!! 1) with s.
      destruct (stoi s) as [e|jid] eqn:Hstoi.
      * right. exists a0, s, e. repeat split; try done.
        apply orb_true_iff in Hcmd as [Hc|Hc];
          apply String.eqb_eq in Hc; auto.
      * left. rewrite bind_get.
        destruct (list_find _ (jobs w)) as [[k it]|].
        -- unfold kill. rewrite bind_emit.
           destruct (String.eqb a0 "fg"); by eexists _, _.
        -- unfold cerr. rewrite bind_emit. by eexists _, _.
    + left. by eexists _, _.
Qed.

Lemma back_None (s : string) : back s = None → s = "".
Proof.
  induction s as [|c s IH]; [done|].
  cbn [back]. destruct s as [|c' s]; [discriminate|].
  intros Hb. by apply IH in Hb.
Qed.

(** Every way [runCommand] can end on a non-empty line: it returns to the
    read loop, or the line is [exit] or [$Q], or [std::stoi] throws on the
    argument of [fg] or [bg]. *)
Lemma runCommand_ends (env : Env) (input : string) w :
  input ≠ "" →
  (∃ w', runCommand env input w = (Ret tt, w')) ∨
  (∃ w', runCommand env input w = (Exited 0, w')) ∨
  (∃ e w', runCommand env input w = (Thrown e, w') ∧
           ∃ s, stoi s = inl e).
Proof.
  intros Hne. unfold runCommand.
  destruct (back input) as [c|] eqn:Hback.
  2: { by apply back_None in Hback. }
  destruct (Nat.ltb 1 (length (splitByPipe _))).
  { destruct (executePipeline_run env
                (splitByPipe (if Ascii.eqb c "&"%char then pop_back input
                              else input)) w) as (cs & -> & _).
    left. by eexists. }
  destruct (handleBuiltins_ends env
              (tokenize (if Ascii.eqb c "&"%char then pop_back input
                         else input)) w) as (es & [[b Hb] | Hb]).
  2: { right. left. unfold bind at 1. rewrite Hb. by eexists. }
  rewrite (bind_Ret _ _ _ _ _ Hb).
  destruct b; [left; by eexists|].
  destruct (handleJobBuiltins_ends
              (tokenize (if Ascii.eqb c "&"%char then pop_back input
                         else input)) (add_events es w))
    as [(b & w' & Hj) | (cmd & s & e & _ & _ & Hstoi & Hj)].
  2: { right. right. unfold bind at 1. rewrite Hj. eexists _, _.
       split; [reflexivity|]. by exists s. }
  rewrite (bind_Ret _ _ _ _ _ Hj).
  destruct b; [left; by eexists|].
  destruct (fork_run env (command_child env
              (tokenize (if Ascii.eqb c "&"%char then pop_back input
                         else input))) w') as (cs & Hfork & _).
  rewrite (bind_Ret _ _ _ _ _ Hfork).
  left. destruct (negb _); by eexists.
Qed.

Lemma main_loop_cons (env : Env) (input : string) (lines : list string) w :
  is_empty input = false →
  main_loop env (input :: lines) w
  = bind (runCommand env input) (fun _ => main_loop env lines)
      (add_events [EvAppendHistory input]
         (set_history (history w ++ [input])
            (add_events [EvAddHistory input] w))).
Proof. intros Hempty. cbn [main_loop]. by rewrite Hempty. Qed.

Lemma main_loop_ends (env : Env) (lines : list string) : ∀ w,
  (∃ w', main_loop env lines w = (Ret tt, w')) ∨
  (∃ w', main_loop env lines w = (Exited 0, w')) ∨
  (∃ e w', main_loop env lines w = (Thrown e, w') ∧ ∃ s, stoi s = inl e).
Proof.
  induction lines as [|input lines IH]; intros w.
  - left. by eexists.
  - destruct (is_empty input) eqn:Hempty.
    { cbn [main_loop]. rewrite Hempty. apply IH. }
    assert (Hne : input ≠ "") by (by destruct input).
    rewrite (main_loop_cons env input lines w Hempty).
    destruct (runCommand_ends env input
                (add_events [EvAppendHistory input]
                   (set_history (history w ++ [input])
                      (add_events [EvAddHistory input] w))) Hne)
      as [[w' Hr] | [[w' Hr] | (e & w' & Hr & Hs)]].
    + rewrite (bind_Ret _ _ _ _ _ Hr). apply IH.
    + right. left. unfold bind. rewrite Hr. by eexists.
    + right. right. unfold bind. rewrite Hr. by eexists _, _.
Qed.

(** The shell ends at the end of the input (with status 0), on [exit] or
    [$Q], or because [std::stoi] threw. *)
Lemma main_ends (env : Env) (lines : list string) w :
  (∃ w', main env lines w = (Ret 0%Z, w')) ∨
  (∃ w', main env lines w = (Exited 0, w')) ∨
  (∃ e w', main env lines w = (Thrown e, w') ∧ ∃ s, stoi s = inl e).
Proof.
  assert (Hmain : ∃ w0,
            main env lines w
            = bind (main_loop env lines)
                (fun _ => bind (cout [Str (NL +:+ "Goodbye!" +:+ NL)])
                            (fun _ => ret 0%Z)) w0)
    by (by eexists).
  destruct Hmain as [w0 ->].
  destruct (main_loop_ends env lines w0)
    as [[w' Hr] | [[w' Hr] | (e & w' & Hr & Hs)]].
  - left. rewrite (bind_Ret _ _ _ _ _ Hr). unfold cout.
    rewrite bind_emit. by eexists.
  - right. left. unfold bind. rewrite Hr. by eexists.
  - right. right. unfold bind. rewrite Hr. by eexists _, _.
Qed.

(** ** The claim about the read loop *)

Lemma handleJobBuiltins_stoi_throws (cmd s : string) (e : exn) w :
  cmd = "fg" ∨ cmd = "bg" → stoi s = inl e →
  handleJobBuiltins [cmd; s] w = (Thrown e, w).
Proof.
  intros Hcmd Hstoi. unfold handleJobBuiltins.
  assert (Htest : String.eqb cmd "jobs" = false
                  ∧ (String.eqb cmd "fg" || String.eqb cmd "bg") = true)
    by (destruct Hcmd as [-> | ->]; split; reflexivity).
  destruct Htest as [-> ->].
  cbn [length Nat.eqb andb].
  change ([cmd; s] !!! 1) with s. by rewrite Hstoi.
Qed.

(** An unknown numeric id is reported and the loop goes on to the end of
    the input. *)
Lemma main_unknown_job_id_continues :
  (main sample_env ["fg 7"; "bg 7"] initial_world).1 = Ret 0%Z.
Proof. vm_compute. reflexivity. Qed.


(** C3, what the code does instead of the claim.  On the line [fg abc],
    [std::stoi] throws [std::invalid_argument]; nothing catches it, so it
    leaves [main] ([std::terminate]) and the lines after it are never
    read. *)
Theorem C3_non_numeric_job_id_ends_the_shell (env : Env)
    (rest : list string) w :
  (main env ("fg abc" :: rest) w).1 = Thrown (invalid_argument "stoi").
Proof. reflexivity. Qed.

(** ** The claim about [fg] and [bg] *)

(** C6.  With a numeric job id [jid]: when the first job whose [id] is
    [jid] is [job], at index [k], [fg] sends [SIGCONT] to its pid, calls the
    blocking [waitpid] on it and erases entry [k]; [bg] sends [SIGCONT] and
    sets [running]; when no job has that id, both write
    [<cmd>: job not found: <jid>] to [std::cerr] and leave the table (and
    all the globals) unchanged.  All four return [true] to the read
    loop. *)
Theorem C6_fg_bg (s : string) (jid : Z) w :
  stoi s = inr jid →
  (∀ k job,
     jobs w !! k = Some job → job_id job = jid →
     (∀ i j, i < k → jobs w !! i = Some j → job_id j ≠ jid) →
     handleJobBuiltins ["fg"; s] w
     = (Ret true,
        set_jobs (delete k (jobs w))
          (add_events [EvKill (job_pid job) SIGCONT;
                       EvWaitpid (job_pid job) 0] w)) ∧
     handleJobBuiltins ["bg"; s] w
     = (Ret true,
        set_jobs (<[k := set_running true job]> (jobs w))
          (add_events [EvKill (job_pid job) SIGCONT] w))) ∧
  ((∀ job, job ∈ jobs w → job_id job ≠ jid) →
   handleJobBuiltins ["fg"; s] w
   = (Ret true,
      add_events [EvCerr [Str "fg"; Str ": job not found: "; Num jid;
                          Str NL]] w) ∧
   handleJobBuiltins ["bg"; s] w
   = (Ret true,
      add_events [EvCerr [Str "bg"; Str ": job not found: "; Num jid;
                          Str NL]] w)).
Proof.
  intros Hstoi.
  rewrite (fg_bg_run "fg" s jid w (or_introl eq_refl) Hstoi).
  rewrite (fg_bg_run "bg" s jid w (or_intror eq_refl) Hstoi).
  split.
  - intros k job Hk Hid Hfirst.
    assert (Hfind : list_find (fun job => job_id job = jid) (jobs w)
                    = Some (k, job)).
    { apply list_find_Some. split; [exact Hk|]. split; [exact Hid|].
      intros i j Hi Hlt. by apply (Hfirst i j). }
    rewrite Hfind. split; reflexivity.
  - intros Habsent.
    assert (Hfind : list_find (fun job => job_id job = jid) (jobs w) = None).
    { apply list_find_None, Forall_forall. exact Habsent. }
    rewrite Hfind. split; reflexivity.
Qed.

(** C6: [fg 1] and [fg 7] on a table that holds job 1. *)
Lemma C6_fg_bg_witness :
  handleJobBuiltins ["fg"; "1"] (set_jobs [sample_job] initial_world)
  = (Ret true,
     set_jobs []
       (add_events [EvKill 100 SIGCONT; EvWaitpid 100 0]
          (set_jobs [sample_job] initial_world))) ∧
  handleJobBuiltins ["fg"; "7"] (set_jobs [sample_job] initial_world)
  = (Ret true,
     add_events [EvCerr [Str "fg"; Str ": job not found: "; Num 7; Str NL]]
       (set_jobs [sample_job] initial_world)).
Proof.
  split.
  - apply (C6_fg_bg "1" 1 (set_jobs [sample_job] initial_world) eq_refl
             : _ ∧ _) with (k := 0) (job := sample_job).
    + reflexivity.
    + reflexivity.
    + intros i j Hi. lia.
  - apply (C6_fg_bg "7" 7 (set_jobs [sample_job] initial_world) eq_refl).
    intros job Hjob. apply list_elem_of_singleton in Hjob. subst job.
    vm_compute. discriminate.
Defined.

(** ** The claims about children *)

(** C7, as amended.  When a stage's redirection target cannot be opened,
    nothing is reported and the stage is not aborted: [open] returns -1,
    which is passed to [dup2] and to [close]; no event before [execvp]
    writes to a stream or exits; and the stage calls [execvp] with the
    arguments the scan has kept. *)
Theorem C7_failed_open_is_silent (env : Env) (n i : nat) (pipefds : list Z)
    (command op path : string) w :
  (op, path) ∈ performed (tokenize command) →
  sys_open env path (redirection_flags op) = None →
  kept (tokenize command) ≠ [] →
  ∃ r before after,
    pipeline_child env n i pipefds command w
    = (r, add_events
            (before ++
             EvExecvp (kept (tokenize command))
               (sys_execvp env (kept (tokenize command))) :: after) w) ∧
    Forall (fun e => is_report e = false) before ∧
    ∃ l1 l2,
      before = l1 ++ [EvOpen path (redirection_flags op) 420 (-1);
                      EvDup2 (-1) (redirection_target op);
                      EvClose (-1)] ++ l2.
Proof.
  intros Hin Hopen Hargs.
  rewrite pipeline_child_run. cbv zeta.
  destruct (kept (tokenize command)) as [|a0 args] eqn:Hkept; [done|].
  assert (Hsplit : ∃ l1 l2,
            wiring n i pipefds ++
            (performed (tokenize command) ≫= redirection_events env)
            = l1 ++ [EvOpen path (redirection_flags op) 420 (-1);
                     EvDup2 (-1) (redirection_target op); EvClose (-1)]
                 ++ l2).
  { apply list_elem_of_split in Hin as (rs1 & rs2 & ->).
    exists (wiring n i pipefds ++ (rs1 ≫= redirection_events env)),
           (rs2 ≫= redirection_events env).
    rewrite bind_app, bind_cons. unfold redirection_events at 2.
    cbn [fst snd]. rewrite Hopen. by rewrite <- !app_assoc. }
  assert (Hquiet : Forall (fun e => is_report e = false)
                     (wiring n i pipefds ++
                      (performed (tokenize command)
                         ≫= redirection_events env))).
  { apply Forall_app. split.
    - apply wiring_quiet.
    - apply redirection_events_quiet. }
  destruct (sys_execvp env (a0 :: args)) as [err|].
  - eexists _, _, _. split; [reflexivity|]. split; [exact Hquiet|].
    exact Hsplit.
  - eexists _, _, []. split; [reflexivity|]. split; [exact Hquiet|].
    exact Hsplit.
Qed.

(** C7: the stage [cat < missing]. *)
Lemma C7_failed_open_is_silent_witness :
  ∃ r before after,
    pipeline_child sample_env 2 0 [3; 4]%Z "cat < missing " initial_world
    = (r, add_events (before ++ EvExecvp ["cat"] None :: after)
            initial_world) ∧
    Forall (fun e => is_report e = false) before ∧
    ∃ l1 l2,
      before = l1 ++ [EvOpen "missing" 0 420 (-1); EvDup2 (-1) 0;
                      EvClose (-1)] ++ l2.
Proof.
  apply (C7_failed_open_is_silent sample_env 2 0 [3; 4]%Z "cat < missing "
           "<" "missing" initial_world).
  - vm_compute. left.
  - reflexivity.
  - vm_compute. discriminate.
Defined.

(** C7 as stated fails: in [cat < missing | wc] the first stage reports
    nothing and runs [cat]. *)
Lemma C7_redirection_error_counterexample :
  children
    (runCommand sample_env "cat < missing | wc" initial_world).2
  = [ {| child_pid := 100;
         child_trace := [EvDup2 4 1; EvClose 3; EvClose 4;
                         EvOpen "missing" 0 420 (-1); EvDup2 (-1) 0;
                         EvClose (-1); EvExecvp ["cat"] None];
         child_end := Replaced ["cat"] |};
      {| child_pid := 101;
         child_trace := [EvDup2 3 0; EvClose 3; EvClose 4;
                         EvExecvp ["wc"] None];
         child_end := Replaced ["wc"] |} ].
Proof. vm_compute. reflexivity. Qed.

(** C8, what the code does instead of the claim.  In the pipeline
    [fgg | cat] the child of the first stage calls [perror("exec failed")]
    and [exit(1)]: the command is not named and [suggest] is not called.
    The child of the single command [fgg] does both. *)
Theorem C8_pipeline_exec_failure_diagnostic :
  children (runCommand sample_env "fgg | cat" initial_world).2
  = [ {| child_pid := 100;
         child_trace := [EvDup2 4 1; EvClose 3; EvClose 4;
                         EvExecvp ["fgg"] (Some "No such file or directory");
                         EvPerror "exec failed" "No such file or directory";
                         EvExit 1];
         child_end := Exited 1 |};
      {| child_pid := 101;
         child_trace := [EvDup2 3 0; EvClose 3; EvClose 4;
                         EvExecvp ["cat"] None];
         child_end := Replaced ["cat"] |} ] ∧
  children (runCommand sample_env "fgg" initial_world).2
  = [ {| child_pid := 100;
         child_trace := [EvExecvp ["fgg"] (Some "No such file or directory");
                         EvCerr [Str "Error: `"; Str "fgg"; Str "`: ";
                                 Str "No such file or directory"; Str NL];
                         EvCout [Str "Did you mean `"; Str "fg";
                                 Str ("`?" +:+ NL)];
                         EvExit 1];
         child_end := Exited 1 |} ].
Proof. split; vm_compute; reflexivity. Qed.

(** ** The claim about a trailing operator *)

(** C10, as amended.  When the last token [op] is a redirection operator
    and the scan of the tokens before it does not end on an operator that
    waits for its path, [handleRedirection] does for [pre ++ [op]] exactly
    what it does for [pre], reports nothing, and leaves [op] as the last
    argument; [execvp] receives it. *)
Theorem C10_trailing_operator_stays (env : Env) (pre : list string)
    (op : string) w :
  is_redirection op = true →
  dangling pre = false →
  ∃ args es,
    handleRedirection env pre w = (Ret args, add_events es w) ∧
    handleRedirection env (pre ++ [op]) w
    = (Ret (args ++ [op]), add_events es w) ∧
    Forall (fun e => is_report e = false) es ∧
    ∃ r after,
      command_child env (pre ++ [op]) w
      = (r, add_events
              (es ++ EvExecvp (args ++ [op])
                       (sys_execvp env (args ++ [op])) :: after) w).
Proof.
  intros Hop Hd.
  destruct (proj1 (scan_snoc op Hop pre) Hd) as [Hkept Hperf].
  exists (kept pre), (performed pre ≫= redirection_events env).
  split; [apply handleRedirection_scan|].
  split; [by rewrite handleRedirection_scan, Hkept, Hperf|].
  split; [apply redirection_events_quiet|].
  destruct (command_child_run env (pre ++ [op]) w) as (hints & _ & Hrun).
  rewrite Hrun, Hkept, Hperf. cbv zeta.
  destruct (kept pre ++ [op]) as [|a0 args] eqn:Hargs.
  - by destruct (kept pre).
  - destruct (sys_execvp env (a0 :: args)) as [err|].
    + eexists _, _. reflexivity.
    + eexists _, []. reflexivity.
Qed.

(** C10: [cat < in >]. *)
Lemma C10_trailing_operator_stays_witness :
  ∃ args es,
    handleRedirection sample_env ["cat"; "<"; "in"] initial_world
    = (Ret args, add_events es initial_world) ∧
    handleRedirection sample_env (["cat"; "<"; "in"] ++ [">"]) initial_world
    = (Ret (args ++ [">"]), add_events es initial_world) ∧
    Forall (fun e => is_report e = false) es ∧
    ∃ r after,
      command_child sample_env (["cat"; "<"; "in"] ++ [">"]) initial_world
      = (r, add_events
              (es ++ EvExecvp (args ++ [">"])
                       (sys_execvp sample_env (args ++ [">"])) :: after)
              initial_world).
Proof.
  apply (C10_trailing_operator_stays sample_env ["cat"; "<"; "in"] ">"
           initial_world).
  - reflexivity.
  - reflexivity.
Defined.

(** C10 as stated fails: in [cat > >] the last token is the path of the
    operator before it; it is opened as a file and erased. *)
Lemma C10_operator_taken_as_path_counterexample :
  handleRedirection sample_env ["cat"; ">"; ">"] initial_world
  = (Ret ["cat"],
     add_events [EvOpen ">" 577 420 3; EvDup2 3 1; EvClose 3] initial_world).
Proof. vm_compute. reflexivity. Qed.


(** * Further properties *)

Import Vocabulary.

(** ** Text *)

Lemma append_cons (c : ascii) (s t : string) :
  String c s +:+ t = String c (s +:+ t).
Proof. reflexivity. Qed.

Lemma append_nil_l (s : string) : "" +:+ s = s.
Proof. reflexivity. Qed.

Lemma append_nil_r (s : string) : s +:+ "" = s.
Proof. induction s as [|c s IH]; [done|]. by rewrite append_cons, IH. Qed.

Lemma append_assoc (s t u : string) : (s +:+ t) +:+ u = s +:+ t +:+ u.
Proof.
  induction s as [|c s IH]; [done|]. by rewrite !append_cons, IH.
Qed.

Lemma push_back_append (s t : string) (c : ascii) :
  push_back s c +:+ t = s +:+ String c t.
Proof. unfold push_back. by rewrite append_assoc. Qed.

Lemma chars_append (s t : string) :
  String.list_ascii_of_string (s +:+ t)
  = String.list_ascii_of_string s ++ String.list_ascii_of_string t.
Proof.
  induction s as [|c s IH]; [done|].
  rewrite append_cons. cbn [String.list_ascii_of_string app]. by rewrite IH.
Qed.

Lemma is_empty_true (s : string) : is_empty s = true ↔ s = "".
Proof. by destruct s. Qed.

Lemma push_back_not_empty (s : string) (c : ascii) : push_back s c ≠ "".
Proof. by destruct s. Qed.

Lemma contains_append (c : ascii) (s t : string) :
  Unified.contains c (s +:+ t)
  = Unified.contains c s || Unified.contains c t.
Proof.
  induction s as [|d s IH]; [done|].
  rewrite append_cons. cbn [Unified.contains]. by rewrite IH, orb_assoc.
Qed.

(** ** [tokenize] *)

Lemma tokenize_from_tokens (line : string) : ∀ tok : string,
  Forall (fun c => isspace c = false) (String.list_ascii_of_string tok) →
  Forall (fun t => t ≠ "" ∧
            Forall (fun c => isspace c = false)
              (String.list_ascii_of_string t))
    (tokenize_from tok line).
Proof.
  induction line as [|c line IH]; intros tok Htok; cbn [tokenize_from].
  - destruct (is_empty tok) eqn:Hempty; [constructor|].
    repeat constructor; [|exact Htok]. intros ->. discriminate.
  - destruct (isspace c) eqn:Hc.
    + destruct (is_empty tok) eqn:Hempty.
      * apply IH. constructor.
      * constructor; [|apply IH; constructor].
        split; [|exact Htok]. intros ->. discriminate.
    + apply IH. unfold push_back. rewrite chars_append.
      apply Forall_app. split; [exact Htok|]. by repeat constructor.
Qed.

(** X1: every token [tokenize] returns is non-empty and holds no white
    space. *)
Theorem tokenize_tokens (line : string) :
  Forall (fun t => t ≠ "" ∧
            Forall (fun c => isspace c = false)
              (String.list_ascii_of_string t))
    (tokenize line).
Proof. apply tokenize_from_tokens. constructor. Qed.

Lemma tokenize_from_word (a : string) : ∀ tok rest : string,
  Forall (fun c => isspace c = false) (String.list_ascii_of_string a) →
  tokenize_from tok (a +:+ rest) = tokenize_from (tok +:+ a) rest.
Proof.
  induction a as [|c a IH]; intros tok rest Ha.
  - by rewrite append_nil_r.
  - apply Forall_cons in Ha as [Hc Ha].
    rewrite append_cons. cbn [tokenize_from]. rewrite Hc.
    rewrite IH by exact Ha. by rewrite push_back_append.
Qed.

Lemma word_has_no_space (a : string) :
  Forall (fun c => isspace c = false) (String.list_ascii_of_string a) →
  Unified.contains " " a = false.
Proof.
  induction a as [|c a IH]; [done|]. intros Ha.
  apply Forall_cons in Ha as [Hc Ha]. cbn [Unified.contains].
  rewrite (IH Ha), orb_false_r.
  destruct (Ascii.eqb_spec c " ") as [-> | Hne]; [discriminate | done].
Qed.

Lemma tokenize_buildCommand_from (args : list string) : ∀ (i : nat) tok,
  tok ≠ "" →
  Forall (fun t => t ≠ "" ∧
            Forall (fun c => isspace c = false)
              (String.list_ascii_of_string t)) args →
  tokenize_from tok (Unified.buildCommand_from (S i) args) = tok :: args.
Proof.
  induction args as [|a args IH]; intros i tok Htok Hargs.
  - cbn [Unified.buildCommand_from tokenize_from].
    by destruct tok.
  - apply Forall_cons in Hargs as [[Hne Ha] Hargs].
    cbn [Unified.buildCommand_from Nat.ltb Nat.leb].
    rewrite (word_has_no_space a Ha).
    rewrite append_cons, append_nil_l. cbn [tokenize_from].
    change (isspace " ") with true. cbn match.
    replace (is_empty tok) with false by (by destruct tok).
    rewrite (tokenize_from_word a "" _ Ha), append_nil_l.
    by rewrite IH.
Qed.

(** X2: [buildCommand] and [tokenize] undo each other on words: the
    command text built from words without white space splits into the same
    words again; so building the text from the tokens of a line and splitting
    it again gives the tokens of the line. *)
Theorem tokenize_buildCommand :
  (∀ args : list string,
     Forall (fun t => t ≠ "" ∧
               Forall (fun c => isspace c = false)
                 (String.list_ascii_of_string t)) args →
     Unified.tokenize (Unified.buildCommand args) = args) ∧
  (∀ input : string,
     Unified.tokenize (Unified.buildCommand (Unified.tokenize input))
     = Unified.tokenize input).
Proof.
  assert (Hround : ∀ args : list string,
     Forall (fun t => t ≠ "" ∧
               Forall (fun c => isspace c = false)
                 (String.list_ascii_of_string t)) args →
     Unified.tokenize (Unified.buildCommand args) = args).
  { intros [|a args] Hargs; [reflexivity|].
    pose proof Hargs as Hall.
    apply Forall_cons in Hargs as [[Hne Ha] Hargs].
    unfold Unified.tokenize, tokenize, Unified.buildCommand.
    cbn [Unified.buildCommand_from Nat.ltb Nat.leb].
    rewrite (word_has_no_space a Ha).
    rewrite append_nil_l, (tokenize_from_word a "" _ Ha), append_nil_l.
    by apply tokenize_buildCommand_from. }
  split; [exact Hround|].
  intros input. apply Hround, tokenize_from_tokens. constructor.
Qed.

Lemma tokenize_buildCommand_witness :
  Unified.tokenize (Unified.buildCommand ["dir"; "/w"; "C:\"])
  = ["dir"; "/w"; "C:\"].
Proof.
  apply (proj1 tokenize_buildCommand).
  repeat constructor; discriminate.
Defined.

(** ** [back] and [pop_back] *)

Lemma back_append (s t : string) : t ≠ "" → back (s +:+ t) = back t.
Proof.
  intros Ht. induction s as [|c s IH]; [done|].
  rewrite append_cons. cbn [back]. rewrite IH.
  destruct (s +:+ t) eqn:Hst; [|done].
  destruct s; [by rewrite append_nil_l in Hst | discriminate].
Qed.

Lemma pop_back_append (s t : string) :
  t ≠ "" → pop_back (s +:+ t) = s +:+ pop_back t.
Proof.
  intros Ht. induction s as [|c s IH]; [done|].
  rewrite !append_cons. cbn [pop_back]. rewrite IH.
  destruct (s +:+ t) eqn:Hst; [|done].
  destruct s; [by rewrite append_nil_l in Hst | discriminate].
Qed.

Lemma back_without (c : ascii) (s : string) :
  Unified.contains c s = false → back s ≠ Some c.
Proof.
  induction s as [|d s IH]; [done|]. cbn [Unified.contains back].
  intros [Hd Hs]%orb_false_elim.
  destruct s as [|e s]; [|by apply IH].
  intros [= ->]. by rewrite Ascii.eqb_refl in Hd.
Qed.

(** ** [splitByPipe] *)

Lemma splitByPipe_from_nil (input : string) : ∀ segment : string,
  splitByPipe_from segment input = [] → segment = "" ∧ input = "".
Proof.
  induction input as [|c input IH]; intros segment; cbn [splitByPipe_from].
  - destruct segment; [done | discriminate].
  - destruct (Ascii.eqb c "|"); [discriminate|].
    intros H%IH. destruct H as [H _]. by destruct segment.
Qed.

Lemma splitByPipe_from_spec (input : string) : ∀ segment : string,
  Unified.contains "|" segment = false →
  Forall (fun seg => Unified.contains "|" seg = false)
    (splitByPipe_from segment input) ∧
  String.concat "|" (splitByPipe_from segment input)
  = (if decide (back (segment +:+ input) = Some "|"%char)
     then pop_back (segment +:+ input) else segment +:+ input).
Proof.
  induction input as [|c input IH]; intros segment Hseg;
    cbn [splitByPipe_from].
  - rewrite append_nil_r.
    destruct (decide (back segment = Some "|"%char)) as [Hb|_];
      [by apply back_without in Hseg|].
    destruct segment; cbn [is_empty String.concat]; by repeat constructor.
  - destruct (Ascii.eqb_spec c "|") as [-> | Hc].
    + destruct (IH "" eq_refl) as [Hall Hcat]. rewrite append_nil_l in Hcat.
      split; [by constructor|].
      destruct (splitByPipe_from "" input) as [|seg segs] eqn:Hsplit.
      * apply splitByPipe_from_nil in Hsplit as [_ ->].
        cbn [String.concat].
        rewrite back_append, pop_back_append by done.
        cbn [back pop_back]. rewrite decide_True by done.
        by rewrite append_nil_r.
      * assert (Hne : input ≠ "").
        { intros ->. discriminate. }
        change (String.concat "|" (segment :: seg :: segs))
          with (segment +:+ "|" +:+ String.concat "|" (seg :: segs)).
        rewrite Hcat.
        rewrite (back_append segment) by done.
        rewrite (pop_back_append segment) by done.
        change (String "|" input) with ("|" +:+ input).
        rewrite (back_append "|" input Hne), (pop_back_append "|" input Hne).
        by destruct (decide (back input = Some "|"%char)).
    + destruct (IH (push_back segment c)) as [Hall Hcat].
      { unfold push_back. rewrite contains_append, Hseg.
        cbn [Unified.contains]. apply Ascii.eqb_neq in Hc.
        by rewrite Hc. }
      rewrite push_back_append in Hcat. by split.
Qed.

(** X3: no segment [splitByPipe] returns holds a bar, and joining the
    segments with bars gives the line back, less one bar at its end when it
    has one. *)
Theorem splitByPipe_segments (input : string) :
  Forall (fun seg => Unified.contains "|" seg = false) (splitByPipe input) ∧
  String.concat "|" (splitByPipe input)
  = (if decide (back input = Some "|"%char) then pop_back input else input).
Proof. apply (splitByPipe_from_spec input "" eq_refl). Qed.

(** ** The history file of the unified shell *)

Lemma loadHistory_loop_closed (file : list string) : ∀ h : list string,
  loadHistory_loop file h
  = h ++ take (MAX_HISTORY - length h) (filter (fun line => line ≠ "") file).
Proof.
  induction file as [|line file IH]; intros h.
  - cbn [loadHistory_loop]. by rewrite filter_nil, take_nil, app_nil_r.
  - cbn [loadHistory_loop].
    destruct (Nat.ltb_spec (length h) MAX_HISTORY) as [Hlt|Hge].
    + rewrite IH. destruct line as [|c line]; cbn [is_empty].
      * by rewrite filter_cons_False by (intros Hne; by apply Hne).
      * rewrite filter_cons_True by done.
        rewrite length_app. cbn [length].
        replace (MAX_HISTORY - length h)
          with (S (MAX_HISTORY - (length h + 1))) by lia.
        cbn [take]. by rewrite <- app_assoc.
    + replace (MAX_HISTORY - length h) with 0 by lia.
      by rewrite take_0, app_nil_r.
Qed.

Lemma getlines_from_line (cmd : string) : ∀ line rest : string,
  Unified.contains "010" cmd = false →
  Unified.getlines_from line (cmd +:+ NL +:+ rest)
  = (line +:+ cmd) :: Unified.getlines_from "" rest.
Proof.
  induction cmd as [|c cmd IH]; intros line rest Hcmd.
  - rewrite append_nil_l, append_nil_r. reflexivity.
  - cbn [Unified.contains] in Hcmd.
    apply orb_false_elim in Hcmd as [Hc Hcmd].
    rewrite append_cons. cbn [Unified.getlines_from]. rewrite Hc.
    rewrite IH by exact Hcmd. by rewrite push_back_append.
Qed.

Lemma getlines_saveHistory (history : list string) :
  Forall (fun cmd => Unified.contains "010" cmd = false) history →
  Unified.getlines (Unified.saveHistory history) = history.
Proof.
  unfold Unified.getlines.
  induction history as [|cmd history IH]; intros Hh; [done|].
  apply Forall_cons in Hh as [Hcmd Hh].
  cbn [Unified.saveHistory].
  rewrite (getlines_from_line cmd "" _ Hcmd), append_nil_l.
  by rewrite IH.
Qed.

(** X4: a history that [saveHistory] wrote is read back by
    [loadHistory] as it was, when it has [MAX_HISTORY] entries at most and
    each is non-empty and on one line. *)
Theorem history_round_trip (history : list string) :
  Forall (fun cmd => cmd ≠ "" ∧ Unified.contains "010" cmd = false)
    history →
  length history ≤ Unified.MAX_HISTORY →
  Unified.loadHistory (Some (Unified.saveHistory history)) [] = history.
Proof.
  intros Hh Hlen. cbn [Unified.loadHistory].
  rewrite getlines_saveHistory
    by (eapply Forall_impl; [exact Hh | by intros cmd [_ H]]).
  rewrite loadHistory_loop_closed. cbn [app length].
  rewrite Nat.sub_0_r.
  assert (Hf : filter (fun line : string => line ≠ "") history = history).
  { clear Hlen. induction Hh as [|cmd history [Hne _] _ IH]; [done|].
    by rewrite filter_cons_True, IH by done. }
  rewrite Hf. apply take_ge. exact Hlen.
Qed.

Lemma history_round_trip_witness :
  Unified.loadHistory (Some (Unified.saveHistory ["ls -l"; "dir"])) []
  = ["ls -l"; "dir"].
Proof.
  apply (history_round_trip ["ls -l"; "dir"]).
  - repeat constructor; discriminate.
  - unfold Unified.MAX_HISTORY. simpl. lia.
Defined.

(** ** Redirection, once more *)

Lemma scan_twice (n : nat) : ∀ args : list string,
  length args ≤ n →
  kept (kept args) = kept args ∧ performed (kept args) = [] ∧
  length args = length (kept args) + 2 * length (performed args).
Proof.
  induction n as [|n IH]; intros args Hlen.
  - destruct args; [done | simpl in Hlen; lia].
  - destruct args as [|a rest]; [done|].
    cbn [kept performed]. destruct (is_redirection a) eqn:Ha.
    + destruct rest as [|path rest].
      * cbn [kept performed]. by rewrite Ha.
      * destruct (IH rest) as (Hk & Hp & Hl); [simpl in Hlen; lia|].
        rewrite Hk, Hp. repeat split. cbn [length]. lia.
    + destruct (IH rest) as (Hk & Hp & Hl); [simpl in Hlen; lia|].
      cbn [kept performed]. rewrite Ha, Hk, Hp. repeat split.
      cbn [length]. lia.
Qed.

Lemma length_redirection_events (env : Env) (rs : list (string * string)) :
  length (rs ≫= redirection_events env) = 3 * length rs.
Proof.
  induction rs as [|r rs IH]; [done|].
  cbn [mbind list_bind]. rewrite length_app, IH. cbn [redirection_events length].
  lia.
Qed.

(** X5: a second call of [handleRedirection] on what the first call left
    does nothing: it opens no file and leaves the arguments as they are.
    The first call removes two arguments for every file it opens. *)
Theorem handleRedirection_idempotent (env : Env) (args : list string) w :
  ∃ args' es k,
    handleRedirection env args w = (Ret args', add_events es w) ∧
    (∀ w', handleRedirection env args' w' = (Ret args', w')) ∧
    length es = 3 * k ∧
    length args = length args' + 2 * k.
Proof.
  destruct (scan_twice (length args) args) as (Hk & Hp & Hl); [done|].
  exists (kept args), (performed args ≫= redirection_events env),
    (length (performed args)).
  split; [apply handleRedirection_scan|].
  split; [|split; [apply length_redirection_events | exact Hl]].
  intros w'. rewrite handleRedirection_scan, Hk, Hp.
  cbn [mbind list_bind]. by rewrite add_events_nil.
Qed.

(** ** Lines *)

Lemma isspace_not_bar (c : ascii) : isspace c = true → Ascii.eqb c "|" = false.
Proof.
  intros Hc. destruct (Ascii.eqb_spec c "|") as [-> |]; [|done].
  discriminate.
Qed.

Lemma splitByPipe_from_no_bar (input : string) : ∀ segment : string,
  Unified.contains "|" input = false →
  splitByPipe_from segment input
  = if is_empty (segment +:+ input) then [] else [segment +:+ input].
Proof.
  induction input as [|c input IH]; intros segment Hin.
  - by rewrite append_nil_r.
  - cbn [Unified.contains] in Hin. apply orb_false_elim in Hin as [Hc Hin].
    cbn [splitByPipe_from]. rewrite Hc, IH by exact Hin.
    by rewrite push_back_append.
Qed.

Lemma splitByPipe_no_bar (input : string) :
  Unified.contains "|" input = false → length (splitByPipe input) ≤ 1.
Proof.
  intros Hin. unfold splitByPipe.
  rewrite splitByPipe_from_no_bar by exact Hin.
  destruct (is_empty _); simpl; lia.
Qed.

Lemma blanks_no_bar (blanks : string) :
  Forall (fun c => isspace c = true) (String.list_ascii_of_string blanks) →
  Unified.contains "|" blanks = false.
Proof.
  induction blanks as [|c blanks IH]; [done|].
  cbn [String.list_ascii_of_string Unified.contains].
  intros [Hc Hb]%Forall_cons. by rewrite (isspace_not_bar c Hc), IH.
Qed.

Lemma tokenize_blanks (blanks : string) :
  Forall (fun c => isspace c = true) (String.list_ascii_of_string blanks) →
  tokenize blanks = [].
Proof.
  unfold tokenize. induction blanks as [|c blanks IH]; [done|].
  cbn [String.list_ascii_of_string tokenize_from].
  intros [Hc Hb]%Forall_cons. rewrite Hc. cbn [is_empty]. by apply IH.
Qed.

Lemma blanks_back (blanks : string) :
  Forall (fun c => isspace c = true) (String.list_ascii_of_string blanks) →
  back blanks ≠ Some "&"%char.
Proof.
  induction blanks as [|c blanks IH]; [done|].
  cbn [String.list_ascii_of_string back].
  intros [Hc Hb]%Forall_cons. destruct blanks as [|d blanks].
  - intros [= ->]. discriminate.
  - by apply IH.
Qed.

Lemma runCommand_no_words (env : Env) (input : string) (c : ascii) w :
  back input = Some c →
  Unified.contains "|"
    (if Ascii.eqb c "&" then pop_back input else input) = false →
  tokenize (if Ascii.eqb c "&" then pop_back input else input) = [] →
  runCommand env input w = (Ret tt, w).
Proof.
  intros Hback Hbar Htok. unfold runCommand. rewrite Hback.
  apply splitByPipe_no_bar in Hbar.
  destruct (Nat.ltb_spec 1 (length (splitByPipe
    (if Ascii.eqb c "&" then pop_back input else input)))) as [Hlt|_];
    [lia|].
  by rewrite Htok.
Qed.

(** X6: a line of white space, with or without [&] at its end, runs
    nothing: no process is forked, nothing is printed and the job table
    stays as it is. *)
Theorem runCommand_blank (env : Env) (blanks : string) w :
  Forall (fun c => isspace c = true) (String.list_ascii_of_string blanks) →
  (blanks ≠ "" → runCommand env blanks w = (Ret tt, w)) ∧
  runCommand env (blanks +:+ "&") w = (Ret tt, w).
Proof.
  intros Hb. split.
  - intros Hne. destruct (back blanks) as [c|] eqn:Hback;
      [|by apply back_None in Hback].
    assert (Hc : Ascii.eqb c "&" = false).
    { apply Ascii.eqb_neq. intros ->. by apply (blanks_back blanks). }
    apply (runCommand_no_words env blanks c w Hback); rewrite Hc;
      [by apply blanks_no_bar | by apply tokenize_blanks].
  - assert (Hback : back (blanks +:+ "&") = Some "&"%char)
      by (by rewrite back_append).
    assert (Hpop : pop_back (blanks +:+ "&") = blanks)
      by (rewrite pop_back_append by done; apply append_nil_r).
    apply (runCommand_no_words env _ "&"%char w Hback);
      cbn [Ascii.eqb Bool.eqb]; rewrite Hpop;
      [by apply blanks_no_bar | by apply tokenize_blanks].
Qed.

Lemma runCommand_blank_witness :
  runCommand sample_env "  " initial_world = (Ret tt, initial_world) ∧
  runCommand sample_env "  &" initial_world = (Ret tt, initial_world).
Proof.
  destruct (runCommand_blank sample_env "  " initial_world) as [H1 H2].
  - repeat constructor.
  - split; [by apply H1 | exact H2].
Defined.

(** ** The reaper, call after call *)

Section ReaperCalls.
Context `{WaitMacros}.

(** X7: notifications handled in two calls of [sigchldHandler] leave the
    job table as one call that gets them all; and the call stops at the
    first answer of [waitpid] that is not a positive pid, whatever
    follows. *)
Theorem sigchldHandler_app (first rest : list (Z * Z)) (jobs : list Job) :
  Forall (fun r => 0 < r.1)%Z first →
  sigchldHandler (first ++ rest) jobs
    = sigchldHandler rest (sigchldHandler first jobs) ∧
  (∀ pid status, (pid ≤ 0)%Z →
     sigchldHandler (first ++ (pid, status) :: rest) jobs
     = sigchldHandler first jobs).
Proof.
  intros Hpos. revert jobs.
  induction Hpos as [|[pid0 st0] first Hp _ IH]; intros jobs.
  - split; [done|]. intros pid status Hpid. cbn [app sigchldHandler].
    destruct (Z.ltb_spec 0 pid); [lia | done].
  - cbn [app sigchldHandler]. simpl in Hp.
    destruct (Z.ltb_spec 0 pid0) as [_|]; [|lia].
    apply IH.
Qed.

End ReaperCalls.

Lemma sigchldHandler_app_witness :
  @sigchldHandler linux_wait ([(100, 4991)%Z] ++ [(100, 65535)%Z])
    [sample_job]
  = @sigchldHandler linux_wait [(100, 65535)%Z]
      (@sigchldHandler linux_wait [(100, 4991)%Z] [sample_job]).
Proof.
  apply (@sigchldHandler_app linux_wait [(100, 4991)%Z] [(100, 65535)%Z]
           [sample_job]).
  repeat constructor.
Defined.

(** ** One external command *)

Lemma fork_run_child (env : Env) (child : Proc unit) w :
  fork env child w
  = (Ret (fork_ret (sys_fork env (nfork w))),
     advance [EvFork (fork_ret (sys_fork env (nfork w)))]
       (match sys_fork env (nfork w) with
        | Some p => [{| child_pid := Z.pos p;
                        child_trace := trace (child (child_image w)).2;
                        child_end := (child (child_image w)).1 |}]
        | None => []
        end) 0 1 w).
Proof.
  unfold fork. destruct (sys_fork env (nfork w)) as [p|].
  - destruct (child (child_image w)) as [e wc]. f_equal.
    destruct w. unfold add_child, add_events, count_fork, advance.
    simpl. f_equal; lia.
  - f_equal. destruct w. unfold add_events, count_fork, advance. simpl.
    f_equal; [by rewrite app_nil_r | lia | lia].
Qed.

Lemma handleBuiltins_other (env : Env) (a0 : string) (rest : list string) w :
  a0 ∉ ["cd"; "export"; "history"; "help"; "exit"; "$Q"; "jobs"] →
  handleBuiltins env (a0 :: rest) w = (Ret false, w).
Proof.
  intros Hno. unfold handleBuiltins.
  repeat match goal with
  | |- context [String.eqb a0 ?s] =>
      destruct (String.eqb_spec a0 s) as [-> | _];
      [exfalso; apply Hno; set_solver|]
  end.
  reflexivity.
Qed.

Lemma handleJobBuiltins_other (a0 : string) (rest : list string) w :
  a0 ≠ "jobs" → (a0 = "fg" ∨ a0 = "bg" → length rest ≠ 1) →
  handleJobBuiltins (a0 :: rest) w = (Ret false, w).
Proof.
  intros Hjobs Hfg. unfold handleJobBuiltins.
  destruct (String.eqb_spec a0 "jobs") as [|_]; [done|].
  destruct ((String.eqb a0 "fg" || String.eqb a0 "bg")
            && Nat.eqb (length (a0 :: rest)) 2) eqn:Htest; [|done].
  apply andb_true_iff in Htest as [Hcmd Hlen].
  apply Nat.eqb_eq in Hlen. exfalso. apply Hfg.
  - apply orb_true_iff in Hcmd as [Hc|Hc]; apply String.eqb_eq in Hc; auto.
  - simpl in Hlen. lia.
Qed.

(** X8: a line that names one external command forks once.  In the
    foreground the shell waits for the pid [fork] returned and the job table
    stays as it is; with [&] at the end it adds one running job with the
    next job id, that pid and the line without the [&], and prints the id
    and the pid.  The result of [fork] is not tested: when it fails the pid
    is -1 in both cases. *)
Theorem runCommand_external (env : Env) (input : string) (c : ascii)
    (a0 : string) (rest : list string) w :
  back input = Some c →
  let background := Ascii.eqb c "&" in
  let line := if background then pop_back input else input in
  let pid := fork_ret (sys_fork env (nfork w)) in
  Unified.contains "|" line = false →
  tokenize line = a0 :: rest →
  a0 ∉ ["cd"; "export"; "history"; "help"; "exit"; "$Q"; "jobs"] →
  (a0 = "fg" ∨ a0 = "bg" → length rest ≠ 1) →
  (nextJobId w < INT_MAX)%Z →
  ∃ w',
    runCommand env input w = (Ret tt, w') ∧
    history w' = history w ∧
    nfork w' = S (nfork w) ∧
    children w' = children w ++
      match sys_fork env (nfork w) with
      | Some p =>
          [{| child_pid := Z.pos p;
              child_trace :=
                trace (command_child env (a0 :: rest) (child_image w)).2;
              child_end :=
                (command_child env (a0 :: rest) (child_image w)).1 |}]
      | None => []
      end ∧
    if background then
      jobs w' = jobs w ++ [{| job_id := nextJobId w; job_pid := pid;
                              job_cmdline := line; job_running := true |}] ∧
      nextJobId w' = (nextJobId w + 1)%Z ∧
      trace w' = trace w ++
        [EvFork pid;
         EvCout [Str "["; Num (nextJobId w); Str "] "; Num pid; Str NL]]
    else
      jobs w' = jobs w ∧ nextJobId w' = nextJobId w ∧
      trace w' = trace w ++ [EvFork pid; EvWaitpid pid 0].
Proof.
  intros Hback background line pid Hbar Htok Hno Hfg _.
  unfold runCommand. rewrite Hback. fold background. fold line.
  apply splitByPipe_no_bar in Hbar.
  destruct (Nat.ltb_spec 1 (length (splitByPipe line))) as [Hlt|_]; [lia|].
  rewrite Htok.
  assert (Hjobs : a0 ≠ "jobs") by (intros ->; apply Hno; set_solver).
  rewrite (bind_Ret _ _ _ _ _ (handleBuiltins_other env a0 rest w Hno)).
  rewrite (bind_Ret _ _ _ _ _ (handleJobBuiltins_other a0 rest w Hjobs Hfg)).
  rewrite (bind_Ret _ _ _ _ _ (fork_run_child env _ w)). fold pid.
  destruct background; cbn [negb].
  - rewrite bind_get.
    unfold modify, cout, emit, bind, set_nextJobId, set_jobs, add_events,
      advance. destruct w. simpl.
    eexists. split; [reflexivity|]. simpl.
    repeat split; try lia; by rewrite <- ?app_assoc.
  - unfold waitpid, emit, add_events, advance. destruct w. simpl.
    eexists. split; [reflexivity|]. simpl.
    repeat split; try lia; by rewrite <- ?app_assoc.
Qed.

Lemma runCommand_external_witness :
  ∃ w',
    runCommand sample_env "sleep 5 &" initial_world = (Ret tt, w') ∧
    jobs w' = [sample_job] ∧ nextJobId w' = 2%Z.
Proof.
  destruct (runCommand_external sample_env "sleep 5 &" "&"%char "sleep"
              ["5"] initial_world) as (w' & Hrun & _ & _ & _ & Hbg).
  - reflexivity.
  - reflexivity.
  - reflexivity.
  - refine (bool_decide_unpack _ _). vm_compute. exact I.
  - intros [Hcmd | Hcmd]; discriminate Hcmd.
  - vm_compute. reflexivity.
  - exists w'. simpl in Hbg. destruct Hbg as (Hjobs & Hnext & _).
    split; [exact Hrun|]. split; [exact Hjobs | exact Hnext].
Defined.

(** ** What a command does to the globals *)

(** The ways a command changes the job table and [nextJobId]. *)
Lemma handleJobBuiltins_effect (args : list string) w r w' :
  handleJobBuiltins args w = (r, w') →
  history w' = history w ∧ nextJobId w' = nextJobId w ∧
  (jobs w' = jobs w ∨
   (∃ k, jobs w' = delete k (jobs w)) ∨
   (∃ k it, jobs w !! k = Some it ∧
            jobs w' = <[k := set_running true it]> (jobs w))).
Proof.
  unfold handleJobBuiltins. destruct args as [|a0 args].
  { intros [= <- <-]. auto. }
  destruct (String.eqb a0 "jobs").
  { rewrite bind_get. unfold cout.
    rewrite (bind_Ret _ _ _ _ _
               (for_each_emit
                  (fun job =>
                     EvCout [Str "["; Num (job_id job); Str "] ";
                             Str (if job_running job then "Running"
                                  else "Stopped/Done");
                             Str "  "; Str (job_cmdline job); Str NL])
                  _ _)).
    intros [= <- <-]. auto. }
  destruct ((String.eqb a0 "fg" || String.eqb a0 "bg")
            && Nat.eqb (length (a0 :: args)) 2).
  2: { intros [= <- <-]. auto. }
  destruct (stoi _) as [e|jid].
  { intros [= <- <-]. auto. }
  rewrite bind_get.
  destruct (list_find _ (jobs w)) as [[k it]|] eqn:Hfind.
  - apply list_find_Some in Hfind as (Hk & _ & _).
    unfold kill. rewrite bind_emit.
    destruct (String.eqb a0 "fg"); cbv [bind waitpid emit modify ret];
      intros [= <- <-]; destruct w; simpl in *; eauto 8.
  - unfold cerr. rewrite bind_emit. intros [= <- <-]. auto.
Qed.

Lemma handleJobBuiltins_false (args : list string) w w' :
  handleJobBuiltins args w = (Ret false, w') → w' = w.
Proof.
  unfold handleJobBuiltins. destruct args as [|a0 args].
  { by intros [= <-]. }
  destruct (String.eqb a0 "jobs").
  { rewrite bind_get. unfold cout.
    rewrite (bind_Ret _ _ _ _ _
               (for_each_emit
                  (fun job =>
                     EvCout [Str "["; Num (job_id job); Str "] ";
                             Str (if job_running job then "Running"
                                  else "Stopped/Done");
                             Str "  "; Str (job_cmdline job); Str NL])
                  _ _)).
    intros [=]. }
  destruct ((String.eqb a0 "fg" || String.eqb a0 "bg")
            && Nat.eqb (length (a0 :: args)) 2).
  2: { by intros [= <-]. }
  destruct (stoi _) as [e|jid]; [intros [=]|].
  rewrite bind_get.
  destruct (list_find _ (jobs w)) as [[k it]|].
  - unfold kill. rewrite bind_emit.
    destruct (String.eqb a0 "fg"); cbv [bind waitpid emit modify ret];
      intros [=].
  - unfold cerr. rewrite bind_emit. intros [=].
Qed.

Lemma bind_inv {A B} (c : Proc A) (k : A → Proc B) w r w' :
  bind c k w = (r, w') →
  (∃ a w1, c w = (Ret a, w1) ∧ k a w1 = (r, w')) ∨
  (∀ a, (c w).1 ≠ Ret a) ∧ (c w).2 = w'.
Proof.
  unfold bind. destruct (c w) as [[a| | | |] w1]; intros Hrun.
  - left. by eexists _, _.
  - right. by inversion Hrun.
  - right. by inversion Hrun.
  - right. by inversion Hrun.
  - right. by inversion Hrun.
Qed.

Lemma runCommand_effect (env : Env) (input : string) w r w' :
  runCommand env input w = (r, w') →
  history w' = history w ∧
  ((nextJobId w' = nextJobId w ∧
    (jobs w' = jobs w ∨
     (∃ k, jobs w' = delete k (jobs w)) ∨
     (∃ k it, jobs w !! k = Some it ∧
              jobs w' = <[k := set_running true it]> (jobs w)))) ∨
   (∃ job, job_id job = nextJobId w ∧ jobs w' = jobs w ++ [job] ∧
           nextJobId w' = (nextJobId w + 1)%Z)).
Proof.
  unfold runCommand. destruct (back input) as [c|].
  2: { intros [= <- <-]. auto. }
  set (line := if Ascii.eqb c "&" then pop_back input else input).
  destruct (Nat.ltb 1 (length (splitByPipe line))).
  { destruct (executePipeline_run env (splitByPipe line) w)
      as (cs & -> & _).
    intros [= <- <-]. destruct w; simpl; auto. }
  destruct (handleBuiltins_ends env (tokenize line) w)
    as (es & [[b Hb] | Hb]).
  2: { unfold bind at 1. rewrite Hb. intros [= <- <-].
       destruct w; simpl; auto. }
  rewrite (bind_Ret _ _ _ _ _ Hb).
  destruct b.
  { intros [= <- <-]. destruct w; simpl; auto. }
  intros Hrun. apply bind_inv in Hrun as [(b & w1 & Hj & Hrun) | [_ Hj]].
  2: { destruct (handleJobBuiltins (tokenize line) (add_events es w))
         as [r1 w1] eqn:Hj1.
       simpl in Hj. subst w1.
       apply handleJobBuiltins_effect in Hj1 as (Hh & Hn & Hjobs).
       rewrite Hh, Hn. split; [by destruct w|]. left.
       split; [by destruct w|]. by rewrite !jobs_add_events in Hjobs. }
  destruct b.
  { injection Hrun as <- <-.
    apply handleJobBuiltins_effect in Hj as (Hh & Hn & Hjobs).
    rewrite jobs_add_events in Hjobs.
    rewrite Hh, Hn. split; [by destruct w|]. left.
    split; [by destruct w | exact Hjobs]. }
  apply handleJobBuiltins_false in Hj as ->.
  rewrite (bind_Ret _ _ _ _ _ (fork_run_child env _ _)) in Hrun.
  destruct (negb (Ascii.eqb c "&")).
  { unfold waitpid, emit in Hrun. injection Hrun as <- <-.
    destruct w; simpl; auto. }
  rewrite bind_get in Hrun.
  unfold modify, cout, emit, bind in Hrun. injection Hrun as <- <-.
  split; [reflexivity|]. right.
  eexists. split; [|split; reflexivity]. reflexivity.
Qed.

(** ** The job table *)

Lemma StronglySorted_delete {A} (R : relation A) (l : list A) : ∀ k,
  StronglySorted R l → StronglySorted R (delete k l).
Proof.
  induction l as [|x l IH]; intros k Hl; [by destruct k|].
  apply StronglySorted_cons in Hl as [Hx Hl].
  destruct k as [|k]; [exact Hl|].
  change (delete (S k) (x :: l)) with (x :: delete k l).
  apply StronglySorted_cons. split; [by apply Forall_delete | by apply IH].
Qed.

Lemma job_ids_ok_step w w' :
  job_ids_ok w →
  (nextJobId w' = nextJobId w ∧
   (jobs w' = jobs w ∨
    (∃ k, jobs w' = delete k (jobs w)) ∨
    (∃ k it, jobs w !! k = Some it ∧
             jobs w' = <[k := set_running true it]> (jobs w)))) ∨
  (∃ job, job_id job = nextJobId w ∧ jobs w' = jobs w ++ [job] ∧
          nextJobId w' = (nextJobId w + 1)%Z) →
  job_ids_ok w' ∧ (nextJobId w ≤ nextJobId w' ≤ nextJobId w + 1)%Z.
Proof.
  intros [Hsorted Hbelow]
    [[Hn [Hj | [[k Hj] | (k & it & Hk & Hj)]]] | (job & Hid & Hj & Hn)];
    unfold job_ids_ok; rewrite Hn, Hj; (split; [|lia]).
  - done.
  - rewrite list_fmap_delete.
    split; [by apply StronglySorted_delete | by apply Forall_delete].
  - rewrite list_fmap_insert.
    change (job_id (set_running true it)) with (job_id it).
    by rewrite list_insert_id by (by rewrite list_lookup_fmap, Hk).
  - rewrite fmap_app. cbn [fmap list_fmap]. rewrite Hid. split.
    + apply StronglySorted_app. split; [|split; [done|repeat constructor]].
      intros x1 x2 Hx1 ->%list_elem_of_singleton.
      by eapply Forall_forall in Hbelow.
    + apply Forall_app. split.
      * eapply Forall_impl; [exact Hbelow|]. simpl. lia.
      * repeat constructor. lia.
Qed.

Lemma runCommand_job_ids (env : Env) (input : string) w :
  job_ids_ok w →
  let w' := (runCommand env input w).2 in
  job_ids_ok w' ∧ (nextJobId w ≤ nextJobId w' ≤ nextJobId w + 1)%Z ∧
  history w' = history w.
Proof.
  intros Hok. destruct (runCommand env input w) as [r w'] eqn:Hrun.
  apply runCommand_effect in Hrun as [Hh Hrun]. simpl.
  destruct (job_ids_ok_step w w' Hok Hrun). done.
Qed.

Section ReaperIds.
Context `{WaitMacros}.

Lemma sigchldHandler_job_ids (pending : list (Z * Z)) w :
  job_ids_ok w → job_ids_ok (set_jobs (sigchldHandler pending (jobs w)) w).
Proof.
  unfold job_ids_ok. cbn [set_jobs jobs nextJobId].
  by destruct (sigchldHandler_fields pending (jobs w)) as (-> & _).
Qed.

(** X9: the job table keeps its order.  When its ids increase along the
    table and lie below [nextJobId], they still do after any command line,
    however it ends, and after any run of the [SIGCHLD] handler; a command
    raises [nextJobId] by one at most. *)
Theorem job_ids_preserved (env : Env) (input : string)
    (pending : list (Z * Z)) w :
  job_ids_ok w → (nextJobId w < INT_MAX)%Z →
  let w' := (runCommand env input w).2 in
  job_ids_ok w' ∧ (nextJobId w ≤ nextJobId w' ≤ nextJobId w + 1)%Z ∧
  job_ids_ok (set_jobs (sigchldHandler pending (jobs w)) w).
Proof.
  intros Hok _ w'.
  destruct (runCommand_job_ids env input w Hok) as (Hok' & Hn & _).
  split; [exact Hok'|]. split; [exact Hn|].
  by apply sigchldHandler_job_ids.
Qed.

End ReaperIds.

Lemma job_ids_ok_initial : job_ids_ok initial_world.
Proof. split; constructor. Qed.

Lemma job_ids_preserved_witness :
  job_ids_ok (runCommand sample_env "sleep 5 &" initial_world).2.
Proof.
  destruct (@job_ids_preserved linux_wait sample_env "sleep 5 &" []
              initial_world) as (Hok & _ & _).
  - split; constructor.
  - vm_compute. reflexivity.
  - exact Hok.
Defined.

(** ** The read loop and the globals *)

Lemma main_loop_globals (env : Env) (lines : list string) : ∀ w,
  job_ids_ok w →
  let end_ := main_loop env lines w in
  job_ids_ok end_.2 ∧
  (nextJobId w ≤ nextJobId end_.2
   ≤ nextJobId w + Z.of_nat (length lines))%Z ∧
  ∃ k, k ≤ length lines ∧
       history end_.2
       = history w ++ filter (fun line => line ≠ "") (take k lines) ∧
       (end_.1 = Ret tt → k = length lines).
Proof.
  induction lines as [|input lines IH]; intros w Hok.
  - cbn [main_loop ret fst snd length]. split; [done|]. split; [lia|].
    exists 0. by rewrite app_nil_r.
  - destruct (is_empty input) eqn:Hempty.
    { cbn [main_loop]. rewrite Hempty.
      destruct (IH w Hok) as (Hok' & Hn & k & Hk & Hh & Hend).
      split; [exact Hok'|]. split; [cbn [length]; lia|].
      exists (S k). split; [cbn [length]; lia|].
      apply is_empty_true in Hempty as ->.
      split; [|intros Hr; cbn [length]; f_equal; by apply Hend].
      cbn [take]. by rewrite filter_cons_False by (by intros []). }
    assert (Hne : input ≠ "") by (by destruct input).
    rewrite (main_loop_cons env input lines w Hempty).
    set (w1 := add_events [EvAppendHistory input]
                 (set_history (history w ++ [input])
                    (add_events [EvAddHistory input] w))).
    assert (Hok1 : job_ids_ok w1) by exact Hok.
    destruct (runCommand_job_ids env input w1 Hok1) as (Hok2 & Hn2 & Hh2).
    change (nextJobId w1) with (nextJobId w) in Hn2.
    change (history w1) with (history w ++ [input]) in Hh2.
    unfold bind. destruct (runCommand env input w1) as [[[]| | | |] w2];
      cbn [fst snd] in *.
    + destruct (IH w2 Hok2) as (Hok' & Hn & k & Hk & Hh & Hend).
      split; [exact Hok'|]. split; [cbn [length]; lia|].
      exists (S k). split; [cbn [length]; lia|].
      split; [|intros Hr; cbn [length]; f_equal; by apply Hend].
      cbn [take]. rewrite filter_cons_True by done.
      by rewrite Hh, Hh2, <- app_assoc.
    + split; [exact Hok2|]. split; [cbn [length]; lia|].
      exists 1. split; [cbn [length]; lia|]. split; [|done].
      cbn [take]. rewrite take_0. by rewrite filter_cons_True by done.
    + split; [exact Hok2|]. split; [cbn [length]; lia|].
      exists 1. split; [cbn [length]; lia|]. split; [|done].
      cbn [take]. rewrite take_0. by rewrite filter_cons_True by done.
    + split; [exact Hok2|]. split; [cbn [length]; lia|].
      exists 1. split; [cbn [length]; lia|]. split; [|done].
      cbn [take]. rewrite take_0. by rewrite filter_cons_True by done.
    + split; [exact Hok2|]. split; [cbn [length]; lia|].
      exists 1. split; [cbn [length]; lia|]. split; [|done].
      cbn [take]. rewrite take_0. by rewrite filter_cons_True by done.
Qed.

Lemma main_unfold (env : Env) (lines : list string) w :
  main env lines w
  = bind (main_loop env lines)
      (fun _ => bind (cout [Str (NL +:+ "Goodbye!" +:+ NL)])
                  (fun _ => ret 0%Z))
      (add_events
         [EvCout [Str ("Welcome to Custom Shell! Type 'exit' or '$Q' to quit."
                       +:+ NL)]]
         (set_history (loadHistory_loop (history_file env) (history w))
            (add_events [EvSigaction SIGCHLD] w))).
Proof. reflexivity. Qed.

Lemma main_globals (env : Env) (lines : list string) w :
  job_ids_ok w →
  let end_ := main env lines w in
  job_ids_ok end_.2 ∧
  (nextJobId w ≤ nextJobId end_.2
   ≤ nextJobId w + Z.of_nat (length lines))%Z ∧
  ∃ k, k ≤ length lines ∧
       history end_.2
       = loadHistory_loop (history_file env) (history w)
         ++ filter (fun line => line ≠ "") (take k lines) ∧
       (end_.1 = Ret 0%Z → k = length lines).
Proof.
  intros Hok. rewrite main_unfold.
  set (w0 := add_events _ _).
  assert (Hok0 : job_ids_ok w0) by exact Hok.
  destruct (main_loop_globals env lines w0 Hok0)
    as (Hok' & Hn & k & Hk & Hh & Hend).
  change (nextJobId w0) with (nextJobId w) in Hn.
  change (history w0)
    with (loadHistory_loop (history_file env) (history w)) in Hh.
  unfold bind at 1.
  destruct (main_loop env lines w0) as [[[]| | | |] w']; cbn [fst snd] in *.
  - unfold cout. rewrite bind_emit. cbn [ret fst snd].
    split; [exact Hok'|]. split; [exact Hn|].
    exists k. split; [exact Hk|]. split; [exact Hh|]. intros _. by apply Hend.
  - split; [exact Hok'|]. split; [exact Hn|]. exists k. by repeat split.
  - split; [exact Hok'|]. split; [exact Hn|]. exists k. by repeat split.
  - split; [exact Hok'|]. split; [exact Hn|]. exists k. by repeat split.
  - split; [exact Hok'|]. split; [exact Hn|]. exists k. by repeat split.
Qed.

Lemma StronglySorted_lt_NoDup (l : list Z) :
  StronglySorted Z.lt l → NoDup l.
Proof.
  induction l as [|x l IH]; [constructor|].
  intros [Hx Hl]%StronglySorted_cons. apply NoDup_cons. split; [|by apply IH].
  intros Hin. eapply Forall_forall in Hx; [|exact Hin]. lia.
Qed.

(** X10: from the start of [main] to its end, however it ends, no two jobs
    of the table have the same id, the ids increase along the table, and
    [nextJobId] is above all of them; it has grown by one per line at
    most. *)
Theorem main_job_ids_unique (env : Env) (lines : list string) :
  (Z.of_nat (length lines) < INT_MAX)%Z →
  let w' := (main env lines initial_world).2 in
  job_ids_ok w' ∧ NoDup (job_id <$> jobs w') ∧
  (1 ≤ nextJobId w' ≤ 1 + Z.of_nat (length lines))%Z.
Proof.
  intros _ w'.
  destruct (main_globals env lines initial_world job_ids_ok_initial)
    as (Hok & Hn & _).
  split; [exact Hok|]. split; [|exact Hn].
  apply StronglySorted_lt_NoDup, Hok.
Qed.

Lemma main_job_ids_unique_witness :
  NoDup (job_id <$>
           jobs (main sample_env ["sleep 5 &"; "sleep 5 &"] initial_world).2).
Proof.
  apply (main_job_ids_unique sample_env ["sleep 5 &"; "sleep 5 &"]).
  vm_compute. reflexivity.
Defined.

(** X11: the history in memory at the end of [main] is what [loadHistory]
    read (the first [MAX_HISTORY] non-empty lines of the file), followed by
    the non-empty lines read up to the one that ended the shell, in order and
    with repetitions; when [main] returns, all of them.  No command changes
    it, and nothing bounds it after the start. *)
Theorem main_history (env : Env) (lines : list string) :
  let end_ := main env lines initial_world in
  ∃ k, k ≤ length lines ∧
       history end_.2
       = take MAX_HISTORY (filter (fun line => line ≠ "") (history_file env))
         ++ filter (fun line => line ≠ "") (take k lines) ∧
       (end_.1 = Ret 0%Z → k = length lines).
Proof.
  destruct (main_globals env lines initial_world job_ids_ok_initial)
    as (_ & _ & k & Hk & Hh & Hend).
  exists k. split; [exact Hk|]. split; [|exact Hend].
  rewrite Hh, loadHistory_loop_closed. cbn [initial_world history app length].
  by rewrite Nat.sub_0_r.
Qed.

(** ** [fg] and [bg] on a table with distinct ids *)

Lemma filter_delete_unique {A B} `{EqDecision B} (f : A → B) (l : list A) :
  ∀ k it,
    NoDup (f <$> l) → l !! k = Some it →
    filter (fun x => f x ≠ f it) l = delete k l.
Proof.
  induction l as [|x l IH]; intros k it Hnd Hk; [done|].
  cbn [fmap list_fmap] in Hnd. apply NoDup_cons in Hnd as [Hx Hnd].
  destruct k as [|k]; simpl in Hk.
  - injection Hk as ->. rewrite filter_cons_False by (by intros []).
    change (delete 0 (it :: l)) with l.
    clear IH. induction l as [|y l IH]; [done|].
    cbn [fmap list_fmap] in Hx, Hnd.
    apply not_elem_of_cons in Hx as [Hy Hx].
    apply NoDup_cons in Hnd as [_ Hnd].
    rewrite filter_cons_True by congruence. f_equal. by apply IH.
  - change (delete (S k) (x :: l)) with (x :: delete k l).
    rewrite filter_cons_True.
    + f_equal. by apply IH.
    + intros Heq. apply Hx. rewrite Heq.
      apply list_elem_of_fmap_2. by eapply list_elem_of_lookup_2.
Qed.

Lemma list_find_unique (jid : Z) (l : list Job) : ∀ k it,
  NoDup (job_id <$> l) → l !! k = Some it → job_id it = jid →
  list_find (fun job => job_id job = jid) l = Some (k, it).
Proof.
  intros k it Hnd Hk Hid. apply list_find_Some. split; [exact Hk|].
  split; [exact Hid|]. intros j y Hj Hlt Hy.
  apply NoDup_alt with (i := j) (j := k) (x := jid) in Hnd; [lia| |].
  - by rewrite list_lookup_fmap, Hj, <- Hy.
  - by rewrite list_lookup_fmap, Hk, <- Hid.
Qed.

(** X12: on a table whose ids increase, [fg] with the id of a job removes
    that job and no other, after [SIGCONT] and a blocking [waitpid] on its
    pid; [bg] sends [SIGCONT] and sets its flag, every other job staying as
    it is. *)
Theorem fg_bg_the_job (s : string) (job : Job) w :
  job_ids_ok w → job ∈ jobs w → stoi s = inr (job_id job) →
  handleJobBuiltins ["fg"; s] w
  = (Ret true,
     set_jobs (filter (fun j => job_id j ≠ job_id job) (jobs w))
       (add_events [EvKill (job_pid job) SIGCONT;
                    EvWaitpid (job_pid job) 0] w)) ∧
  handleJobBuiltins ["bg"; s] w
  = (Ret true,
     set_jobs ((fun j => if decide (job_id j = job_id job)
                         then set_running true j else j) <$> jobs w)
       (add_events [EvKill (job_pid job) SIGCONT] w)).
Proof.
  intros [Hsorted _] Hin Hs.
  apply StronglySorted_lt_NoDup in Hsorted.
  apply list_elem_of_lookup_1 in Hin as [k Hk].
  pose proof (list_find_unique (job_id job) (jobs w) k job Hsorted Hk
                eq_refl) as Hfind.
  split.
  - rewrite (fg_bg_run "fg" s (job_id job) w (or_introl eq_refl) Hs), Hfind.
    cbn [String.eqb Ascii.eqb Bool.eqb]. cbn.
    by rewrite (filter_delete_unique job_id (jobs w) k job Hsorted Hk).
  - rewrite (fg_bg_run "bg" s (job_id job) w (or_intror eq_refl) Hs), Hfind.
    cbn. f_equal. f_equal.
    apply list_eq. intros i. rewrite list_lookup_fmap.
    destruct (decide (i = k)) as [-> | Hik].
    + rewrite list_lookup_insert_eq by (by eapply lookup_lt_Some).
      rewrite Hk. simpl. by rewrite decide_True.
    + rewrite list_lookup_insert_ne by done.
      destruct (jobs w !! i) as [j|] eqn:Hi; [|done]. simpl.
      rewrite decide_False; [done|]. intros Heq. apply Hik.
      eapply NoDup_alt; [exact Hsorted | |].
      * by rewrite list_lookup_fmap, Hi.
      * rewrite list_lookup_fmap, Hk. simpl. by rewrite Heq.
Qed.

Lemma fg_bg_the_job_witness :
  jobs (handleJobBuiltins ["fg"; "1"]
          (set_jobs [sample_job] (set_nextJobId 2 initial_world))).2 = [].
Proof.
  destruct (fg_bg_the_job "1" sample_job
              (set_jobs [sample_job] (set_nextJobId 2 initial_world)))
    as [Hfg _].
  - split; repeat constructor.
  - apply list_elem_of_singleton. reflexivity.
  - reflexivity.
  - rewrite Hfg. reflexivity.
Defined.

(** ** The distance of [suggest] *)

Lemma length_chars (s : string) :
  length (String.list_ascii_of_string s) = String.length s.
Proof. induction s as [|c s IH]; [done|]. simpl. by rewrite IH. Qed.

Lemma levenshtein_row_bounds (c : ascii) (b : string) :
  ∀ (prev : list Z) (left i j : Z),
    row_bounds (i - 1) (j - 1) prev →
    (Z.abs (i - (j - 1)) ≤ left ≤ Z.max i (j - 1))%Z →
    row_bounds i j (levenshtein_row c b prev left).
Proof.
  induction b as [|d b IH]; intros prev left i j Hprev Hleft;
    [by intros [|k] v|].
  destruct prev as [|diag [|up prev]]; [by intros [|k] v..|].
  cbn [levenshtein_row].
  set (v := Z.min (Z.min (up + 1) (left + 1))
              (diag + (if Ascii.eqb c d then 0 else 1))).
  pose proof (Hprev 0 diag eq_refl) as Hdiag.
  pose proof (Hprev 1 up eq_refl) as Hup.
  assert (Hv : (Z.abs (i - j) ≤ v ≤ Z.max i j)%Z).
  { unfold v. destruct (Ascii.eqb c d); lia. }
  intros [|k] w Hk.
  - injection Hk as <-. replace (j + Z.of_nat 0)%Z with j by lia. exact Hv.
  - cbn [lookup list_lookup] in Hk.
    replace (j + Z.of_nat (S k))%Z with ((j + 1) + Z.of_nat k)%Z by lia.
    apply (IH (up :: prev) v i (j + 1)%Z); [|by replace (j + 1 - 1)%Z with j by lia|exact Hk].
    intros k' w' Hk'.
    replace (j + 1 - 1 + Z.of_nat k')%Z
      with (j - 1 + Z.of_nat (S k'))%Z by lia.
    by apply Hprev.
Qed.

Lemma length_levenshtein_row (c : ascii) (b : string) :
  ∀ (prev : list Z) (left : Z),
    length (levenshtein_row c b prev left)
    = Nat.min (String.length b) (length prev - 1).
Proof.
  induction b as [|d b IH]; intros prev left; [done|].
  destruct prev as [|diag [|up prev]]; [done..|].
  cbn [levenshtein_row length String.length]. rewrite IH.
  cbn [length]. lia.
Qed.

Lemma levenshtein_rows_bounds (b : string) (a : string) :
  ∀ (i : Z) (prev : list Z),
    (0 ≤ i)%Z → row_bounds i 0 prev →
    length prev = S (String.length b) →
    row_bounds (i + Z.of_nat (String.length a)) 0
      (levenshtein_rows a b i prev) ∧
    length (levenshtein_rows a b i prev) = S (String.length b).
Proof.
  induction a as [|c a IH]; intros i prev Hi Hprev Hlen.
  - cbn [levenshtein_rows String.length].
    by replace (i + Z.of_nat 0)%Z with i by lia.
  - cbn [levenshtein_rows String.length].
    replace (i + Z.of_nat (S (String.length a)))%Z
      with ((i + 1) + Z.of_nat (String.length a))%Z by lia.
    apply IH; [lia| |].
    + intros [|k] v Hk.
      * injection Hk as <-. lia.
      * cbn [lookup list_lookup] in Hk.
        replace (0 + Z.of_nat (S k))%Z with (1 + Z.of_nat k)%Z by lia.
        apply (levenshtein_row_bounds c b prev (i + 1) (i + 1) 1);
          [|lia|exact Hk].
        by replace (i + 1 - 1)%Z with i by lia.
    + cbn [length]. rewrite length_levenshtein_row, Hlen. lia.
Qed.

Lemma row_bounds_first (m : nat) : row_bounds 0 0 (Z.of_nat <$> seq 0 m).
Proof.
  intros k v Hk. rewrite list_lookup_fmap in Hk.
  destruct (seq 0 m !! k) as [x|] eqn:Hx; [|done].
  apply lookup_seq in Hx as [-> _]. injection Hk as <-. lia.
Qed.

(** The entry in column [k] of a row is at most the entry before it on
    the diagonal, plus one when the two characters differ. *)
Lemma levenshtein_row_diagonal (c : ascii) (b : string) :
  ∀ (prev : list Z) (left : Z) (k : nat) v,
    levenshtein_row c b prev left !! k = Some v →
    ∃ diag d,
      prev !! k = Some diag ∧
      String.list_ascii_of_string b !! k = Some d ∧
      (v ≤ diag + (if Ascii.eqb c d then 0 else 1))%Z.
Proof.
  induction b as [|d b IH]; intros prev left k v Hk; [by destruct k|].
  destruct prev as [|diag [|up prev]]; [by destruct k..|].
  cbn [levenshtein_row] in Hk. destruct k as [|k].
  - injection Hk as <-. exists diag, d. repeat split. lia.
  - cbn [lookup list_lookup] in Hk. apply IH in Hk.
    exact Hk.
Qed.

Lemma levenshtein_rows_diagonal (b : string) (a : string) :
  ∀ (i : nat) (prev : list Z) v,
    drop i (String.list_ascii_of_string b) = String.list_ascii_of_string a →
    length prev = S (String.length b) →
    prev !! i = Some v →
    ∃ v', levenshtein_rows a b (Z.of_nat i) prev
            !! (i + String.length a) = Some v' ∧ (v' ≤ v)%Z.
Proof.
  induction a as [|c a IH]; intros i prev v Hdrop Hlen Hv.
  - cbn [levenshtein_rows String.length]. rewrite Nat.add_0_r.
    exists v. split; [exact Hv | lia].
  - cbn [levenshtein_rows String.length].
    cbn [String.list_ascii_of_string] in Hdrop.
    assert (Hc : String.list_ascii_of_string b !! i = Some c).
    { rewrite <- (Nat.add_0_r i), <- lookup_drop, Hdrop. done. }
    assert (Hi : i < String.length b).
    { apply lookup_lt_Some in Hc.
      by rewrite length_chars in Hc. }
    destruct (lookup_lt_is_Some_2
                (levenshtein_row c b prev (Z.of_nat i + 1)) i) as [v1 Hv1].
    { rewrite length_levenshtein_row, Hlen. lia. }
    destruct (levenshtein_row_diagonal c b prev _ i v1 Hv1)
      as (diag & d & Hdiag & Hd & Hle).
    rewrite Hv in Hdiag. injection Hdiag as <-.
    rewrite Hc in Hd. injection Hd as <-.
    rewrite Ascii.eqb_refl in Hle.
    destruct (IH (S i)
                ((Z.of_nat i + 1)%Z
                 :: levenshtein_row c b prev (Z.of_nat i + 1)) v1)
      as (v' & Hv' & Hle').
    + by rewrite <- (Nat.add_1_r i), <- drop_drop, Hdrop.
    + cbn [length]. rewrite length_levenshtein_row, Hlen. lia.
    + exact Hv1.
    + exists v'. split; [|lia].
      replace (Z.of_nat (S i)) with (Z.of_nat i + 1)%Z in Hv' by lia.
      rewrite <- Hv'. f_equal. lia.
Qed.

Lemma levenshtein_last (a b : string) :
  ∃ v,
    levenshtein_rows a b 0 (Z.of_nat <$> seq 0 (S (String.length b)))
      !! String.length b = Some v ∧
    levenshtein a b = v.
Proof.
  destruct (levenshtein_rows_bounds b a 0
              (Z.of_nat <$> seq 0 (S (String.length b))))
    as [_ Hlen]; [lia | apply row_bounds_first | |].
  { by rewrite length_fmap, length_seq. }
  unfold levenshtein. rewrite last_lookup, Hlen. cbn [pred].
  destruct (lookup_lt_is_Some_2
              (levenshtein_rows a b 0
                 (Z.of_nat <$> seq 0 (S (String.length b))))
              (String.length b)) as [v Hv]; [lia|].
  exists v. by rewrite Hv.
Qed.

Lemma levenshtein_between (a b : string) :
  (Z.abs (Z.of_nat (String.length a) - Z.of_nat (String.length b))
   ≤ levenshtein a b
   ≤ Z.max (Z.of_nat (String.length a)) (Z.of_nat (String.length b)))%Z.
Proof.
  destruct (levenshtein_last a b) as (v & Hv & ->).
  destruct (levenshtein_rows_bounds b a 0
              (Z.of_nat <$> seq 0 (S (String.length b))))
    as [Hrow _]; [lia | apply row_bounds_first | |].
  { by rewrite length_fmap, length_seq. }
  apply Hrow in Hv. lia.
Qed.

(** X13: the distance [levenshtein] computes lies between the difference
    of the two lengths and the larger length, and is 0 from a string to
    itself. *)
Theorem levenshtein_bounds (a b : string) :
  (Z.abs (Z.of_nat (String.length a) - Z.of_nat (String.length b))
   ≤ levenshtein a b
   ≤ Z.max (Z.of_nat (String.length a)) (Z.of_nat (String.length b)))%Z ∧
  levenshtein a a = 0%Z.
Proof.
  split; [apply levenshtein_between|].
  pose proof (levenshtein_between a a) as Hbounds.
  destruct (levenshtein_last a a) as (v & Hv & Heq).
  destruct (levenshtein_rows_diagonal a a 0
              (Z.of_nat <$> seq 0 (S (String.length a))) 0%Z)
    as (v' & Hv' & Hle); [done | | done |].
  { by rewrite length_fmap, length_seq. }
  change (Z.of_nat 0) with 0%Z in Hv'.
  change (0 + String.length a) with (String.length a) in Hv'.
  rewrite Hv in Hv'. injection Hv' as <-.
  lia.
Qed.

(** ** The hint *)

Lemma suggest_fold (f : string → Z) (l : list string) :
  ∀ (best0 : string) (d0 : Z),
    let '(best, d) :=
      foldl (fun '(best, bestDist) b =>
               let dist := f b in
               if Z.ltb dist bestDist then (b, dist) else (best, bestDist))
            (best0, d0) l in
    ((∀ b, b ∈ l → (d0 ≤ f b)%Z) ∧ best = best0 ∧ d = d0) ∨
    (∃ i, l !! i = Some best ∧ d = f best ∧ (d < d0)%Z ∧
          ∀ j b, l !! j = Some b →
                 (d ≤ f b)%Z ∧ (j < i → (d < f b)%Z)).
Proof.
  induction l as [|b l IH] using rev_ind; intros best0 d0.
  - left. split; [|done]. by intros b Hb%elem_of_nil.
  - rewrite foldl_app. specialize (IH best0 d0).
    destruct (foldl _ (best0, d0) l) as [best d]. cbn [foldl].
    destruct (Z.ltb_spec (f b) d) as [Hlt | Hge].
    + right. exists (length l). split; [by rewrite list_lookup_middle|].
      split; [done|].
      destruct IH as [(Hall & -> & ->) | (i & Hi & -> & Hd & Hmin)].
      * split; [done|]. intros j b' Hj.
        destruct (decide (j < length l)) as [Hjl | Hjl].
        -- rewrite lookup_app_l in Hj by done.
           apply list_elem_of_lookup_2, Hall in Hj. lia.
        -- apply lookup_lt_Some in Hj as Hj'. rewrite length_app in Hj'.
           simpl in Hj'. assert (j = length l) as -> by lia.
           rewrite list_lookup_middle in Hj by done. injection Hj as <-.
           lia.
      * split; [lia|]. intros j b' Hj.
        destruct (decide (j < length l)) as [Hjl | Hjl].
        -- rewrite lookup_app_l in Hj by done.
           apply Hmin in Hj. lia.
        -- apply lookup_lt_Some in Hj as Hj'. rewrite length_app in Hj'.
           simpl in Hj'. assert (j = length l) as -> by lia.
           rewrite list_lookup_middle in Hj by done. injection Hj as <-.
           lia.
    + destruct IH as [(Hall & -> & ->) | (i & Hi & -> & Hd & Hmin)].
      * left. split; [|done]. intros b' [Hb' | ->%list_elem_of_singleton]%elem_of_app;
          [by apply Hall | done].
      * right. exists i.
        split; [by rewrite lookup_app_l by (by eapply lookup_lt_Some)|].
        split; [done|]. split; [done|]. intros j b' Hj.
        destruct (decide (j < length l)) as [Hjl | Hjl].
        -- rewrite lookup_app_l in Hj by done. by apply Hmin.
        -- apply lookup_lt_Some in Hj as Hj'. rewrite length_app in Hj'.
           simpl in Hj'. assert (j = length l) as -> by lia.
           rewrite list_lookup_middle in Hj by done. injection Hj as <-.
           apply lookup_lt_Some in Hi. split; [done|]. lia.
Qed.

(** X14: [suggest] prints at most one hint.  When some built-in name is
    at distance 2 or less from the command, the hint names the first name
    of the list among those at the least distance; when none is, nothing is
    printed. *)
Theorem suggest_nearest (cmd : string) w :
  ((∀ b, b ∈ suggest_builtins → (2 < levenshtein cmd b)%Z) →
   suggest cmd w = (Ret tt, w)) ∧
  (∀ b, b ∈ suggest_builtins → (levenshtein cmd b ≤ 2)%Z →
   ∃ i best,
     suggest_builtins !! i = Some best ∧
     (∀ j b', suggest_builtins !! j = Some b' →
        (levenshtein cmd best ≤ levenshtein cmd b')%Z ∧
        (j < i → (levenshtein cmd best < levenshtein cmd b')%Z)) ∧
     suggest cmd w = (Ret tt, add_events [hint best] w)).
Proof.
  unfold suggest.
  pose proof (suggest_fold (levenshtein cmd) suggest_builtins ""
                1000000000%Z) as Hfold.
  destruct (foldl _ _ suggest_builtins) as [best d]. split.
  - intros Hfar.
    destruct Hfold as [(_ & _ & ->) | (i & Hi & -> & _ & _)]; [done|].
    apply list_elem_of_lookup_2, Hfar in Hi.
    destruct (Z.leb_spec (levenshtein cmd best) 2); [lia | done].
  - intros b Hb Hnear.
    destruct Hfold as [(Hall & _ & _) | (i & Hi & -> & _ & Hmin)].
    { apply Hall in Hb. lia. }
    exists i, best. split; [exact Hi|]. split; [exact Hmin|].
    apply list_elem_of_lookup_1 in Hb as [j Hj]. apply Hmin in Hj as [Hj _].
    destruct (Z.leb_spec (levenshtein cmd best) 2); [done | lia].
Qed.

Lemma suggest_nearest_witness :
  ∃ best, suggest "exti" initial_world
          = (Ret tt, add_events [hint best] initial_world).
Proof.
  destruct (suggest_nearest "exti" initial_world) as [_ Hnear].
  destruct (Hnear "exit") as (i & best & Hi & Hmin & Hrun).
  - refine (bool_decide_unpack _ _). vm_compute. exact I.
  - vm_compute. discriminate.
  - exists best. exact Hrun.
Defined.

Lemma suggest_builtins_lengths :
  Forall (fun b => 2 ≤ String.length b ≤ 7) suggest_builtins.
Proof. repeat constructor. Qed.

(** X15: for a command of one or two characters [suggest] always prints
    a hint, whatever the command is; for a command of ten characters or
    more it never does. *)
Theorem suggest_by_length (cmd : string) w :
  (String.length cmd ≤ 2 →
   ∃ best, best ∈ suggest_builtins ∧
           suggest cmd w = (Ret tt, add_events [hint best] w)) ∧
  (10 ≤ String.length cmd → suggest cmd w = (Ret tt, w)).
Proof.
  unfold suggest.
  pose proof (suggest_fold (levenshtein cmd) suggest_builtins ""
                1000000000%Z) as Hfold.
  destruct (foldl _ _ suggest_builtins) as [best d]. split.
  - intros Hshort.
    assert (Hcd : (levenshtein cmd "cd" ≤ 2)%Z).
    { destruct (levenshtein_between cmd "cd") as [_ Hle].
      cbn [String.length] in Hle. lia. }
    destruct Hfold as [(Hall & _ & _) | (i & Hi & -> & _ & Hmin)].
    { specialize (Hall "cd" ltac:(by left)). lia. }
    exists best. split; [by eapply list_elem_of_lookup_2|].
    destruct (Hmin 0 "cd" eq_refl) as [Hle _].
    destruct (Z.leb_spec (levenshtein cmd best) 2); [done | lia].
  - intros Hlong.
    destruct Hfold as [(_ & _ & ->) | (i & Hi & -> & _ & _)]; [done|].
    apply list_elem_of_lookup_2 in Hi.
    pose proof suggest_builtins_lengths as Hlen.
    eapply Forall_forall in Hlen; [|exact Hi].
    destruct (levenshtein_between cmd best) as [Hge _].
    destruct (Z.leb_spec (levenshtein cmd best) 2); [lia | done].
Qed.

Lemma suggest_by_length_witness :
  (∃ best, best ∈ suggest_builtins ∧
           suggest "ls" initial_world
           = (Ret tt, add_events [hint best] initial_world)) ∧
  suggest "frobnicate" initial_world = (Ret tt, initial_world).
Proof.
  destruct (suggest_by_length "ls" initial_world) as [Hshort _].
  destruct (suggest_by_length "frobnicate" initial_world) as [_ Hlong].
  split; [apply Hshort | apply Hlong]; simpl; lia.
Defined.

(** ** The children of a pipeline *)

Section Stages.
Context (env : Env).

Lemma pipeline_child_stage n i (pipefds : list Z) (command : string) w :
  pipeline_child env n i pipefds command w
  = (stage_end env command,
     add_events (wiring n i pipefds ++ stage_run env command) w).
Proof.
  rewrite pipeline_child_run. unfold stage_end, stage_run. cbv zeta.
  destruct (kept (tokenize command)) as [|a0 args].
  - by rewrite app_nil_r.
  - destruct (sys_execvp env (a0 :: args)); by rewrite <- app_assoc.
Qed.

Lemma fork_loop_children (body : nat → Proc unit)
    (T : nat → list event) (E : nat → result unit) :
  (∀ i w, body i (child_image w) = (E i, add_events (T i) (child_image w))) →
  ∀ m a w (pids : list positive),
    mapM (sys_fork env) (seq (nfork w) m) = Some pids →
    for_each (seq a m) (fun i => fork env (body i) >> ret tt) w
    = (Ret tt,
       advance ((fun p => EvFork (Z.pos p)) <$> pids)
         (zip_with (fun i p => {| child_pid := Z.pos p; child_trace := T i;
                                  child_end := E i |}) (seq a m) pids)
         0 m w).
Proof.
  intros Hbody. induction m as [|m IH]; intros a w pids Hpids.
  - injection Hpids as <-. cbn [seq for_each fmap list_fmap zip_with].
    by rewrite advance_nil.
  - cbn [seq mapM] in Hpids.
    destruct (sys_fork env (nfork w)) as [p|] eqn:Hp; [|discriminate].
    cbn [mbind option_bind] in Hpids.
    destruct (mapM (sys_fork env) (seq (S (nfork w)) m)) as [pids'|] eqn:Hm;
      [|discriminate].
    injection Hpids as <-.
    cbn [seq for_each].
    assert (Hstep :
      (fork env (body a) >> ret tt) w
      = (Ret tt,
         advance [EvFork (Z.pos p)]
           [{| child_pid := Z.pos p; child_trace := T a;
               child_end := E a |}] 0 1 w)).
    { unfold bind. rewrite fork_run_child, Hp, Hbody. reflexivity. }
    rewrite (bind_Ret _ _ _ _ _ Hstep).
    rewrite (IH (S a) _ pids').
    + rewrite advance_advance. reflexivity.
    + replace (nfork (advance [EvFork (Z.pos p)]
                        [{| child_pid := Z.pos p; child_trace := T a;
                            child_end := E a |}] 0 1 w))
        with (S (nfork w)) by (destruct w; simpl; lia).
      exact Hm.
Qed.

Lemma pipe_descriptors_lookup (pipes : list (N * N)) : ∀ k rd wr,
  pipes !! k = Some (rd, wr) →
  pipe_descriptors pipes !!! (k * 2) = Z.of_N rd ∧
  pipe_descriptors pipes !!! (k * 2 + 1) = Z.of_N wr.
Proof.
  induction pipes as [|[rd0 wr0] pipes IH]; intros k rd wr Hk; [done|].
  destruct k as [|k].
  - by injection Hk as -> ->.
  - apply (IH k rd wr Hk).
Qed.

(** X16: the children of a pipeline.  When the calls of [pipe] and
    [fork] succeed, stage [i] of [n] runs in the child [fork] number [i]
    created; unless it is the first it makes the read end of pipe [i - 1]
    its standard input, unless it is the last it makes the write end of
    pipe [i] its standard output, then it closes every descriptor of every
    pipe, performs the redirections of its command and calls [execvp]; it
    never returns into the code of the shell. *)
Theorem pipeline_stages (commands : list string) w
    (pipes : list (N * N)) (pids : list positive) :
  let n := length commands in
  2 ≤ n →
  mapM (sys_pipe env) (seq (npipe w) (n - 1)) = Some pipes →
  mapM (sys_fork env) (seq (nfork w) n) = Some pids →
  ∃ cs,
    children (executePipeline env commands w).2 = children w ++ cs ∧
    length cs = n ∧
    ∀ i command child,
      commands !! i = Some command → cs !! i = Some child →
      Some (child_pid child) = Z.pos <$> pids !! i ∧
      child_trace child
      = match i with
        | 0 => []
        | S j => [EvDup2 (Z.of_N (pipes !!! j).1) STDIN_FILENO]
        end ++
        (if Nat.ltb i (n - 1)
         then [EvDup2 (Z.of_N (pipes !!! i).2) STDOUT_FILENO] else []) ++
        (EvClose <$> pipe_descriptors pipes) ++
        stage_run env command ∧
      child_end child = stage_end env command ∧
      child_end child ≠ Ret tt.
Proof.
  intros n Hn Hpipes Hforks.
  assert (Hlp : length pipes = n - 1)
    by (apply length_mapM in Hpipes; by rewrite length_seq in Hpipes).
  assert (Hlf : length pids = n)
    by (apply length_mapM in Hforks; by rewrite length_seq in Hforks).
  apply mapM_fmap_Some in Hpipes as [Hpipes _].
  assert (Hfds :
    store_pipes (Some <$> pipes) 0 (stack_garbage env <$> seq 0 (2 * (n - 1)))
    = pipe_descriptors pipes).
  { pose proof (store_pipes_all pipes 0 []
                  (stack_garbage env <$> seq 0 (2 * (n - 1))) []) as Hs.
    rewrite app_nil_l, !app_nil_r in Hs. apply Hs; [reflexivity|].
    rewrite length_fmap, length_seq. lia. }
  set (pipefds := pipe_descriptors pipes).
  set (mk := fun i p =>
    {| child_pid := Z.pos p;
       child_trace := wiring n i pipefds ++ stage_run env (commands !!! i);
       child_end := stage_end env (commands !!! i) |}).
  exists (zip_with mk (seq 0 n) pids).
  split; [|split].
  - unfold executePipeline. fold n.
    rewrite (bind_Ret _ _ _ _ _ (pipe_loop_run env _ _ _ _)).
    rewrite Hpipes, Hfds. fold pipefds.
    pose proof (fork_loop_children
                  (fun i => pipeline_child env n i pipefds (commands !!! i))
                  (fun i => wiring n i pipefds
                            ++ stage_run env (commands !!! i))
                  (fun i => stage_end env (commands !!! i))
                  (fun i w0 => pipeline_child_stage n i pipefds _ _)
                  n 0 (advance (EvPipe <$> (Some <$> pipes)) [] (n - 1) 0 w)
                  pids) as Hloop.
    replace (nfork (advance (EvPipe <$> (Some <$> pipes)) [] (n - 1) 0 w))
      with (nfork w) in Hloop by (destruct w; simpl; lia).
    rewrite (bind_Ret _ _ _ _ _ (Hloop Hforks)).
    unfold close, wait.
    rewrite (bind_Ret _ _ _ _ _
               (for_each_emit (fun j => EvClose (pipefds !!! j)) _ _)).
    rewrite (for_each_emit (fun _ => EvWait)).
    cbn [snd add_events advance children]. by rewrite app_nil_r.
  - rewrite length_zip_with, length_seq. lia.
  - intros i command child Hcmd Hchild.
    apply lookup_zip_with_Some in Hchild as (i' & p & -> & Hi' & Hp).
    apply lookup_seq in Hi' as [-> Hi]. cbn [Nat.add] in *.
    unfold mk. cbn [child_pid child_trace child_end].
    rewrite (list_lookup_total_correct _ _ _ Hcmd).
    split; [by rewrite Hp|]. split; [|split; [done|]].
    + unfold wiring. rewrite <- !app_assoc. f_equal; [|f_equal].
      * destruct i as [|j]; [done|]. cbn [Nat.ltb Nat.leb].
        replace (S j - 1) with j by lia. unfold pipefds.
        destruct (lookup_lt_is_Some_2 pipes j) as [[rd wr] Hj]; [lia|].
        rewrite (list_lookup_total_correct _ _ _ Hj).
        by destruct (pipe_descriptors_lookup pipes j rd wr Hj) as [-> _].
      * destruct (Nat.ltb_spec i (n - 1)) as [Hlt|]; [|done]. unfold pipefds.
        destruct (lookup_lt_is_Some_2 pipes i) as [[rd wr] Hj]; [lia|].
        rewrite (list_lookup_total_correct _ _ _ Hj).
        by destruct (pipe_descriptors_lookup pipes i rd wr Hj) as [_ ->].
      * f_equal.
        assert (Hlen : length pipefds = 2 * (n - 1)).
        { unfold pipefds. rewrite <- Hfds.
          by rewrite length_store_pipes, length_fmap, length_seq. }
        rewrite <- Hlen.
        transitivity
          (EvClose <$> ((fun j => pipefds !!! j)
                          <$> seq 0 (length pipefds))).
        -- by rewrite <- list_fmap_compose.
        -- by rewrite lookup_total_seq.
    + unfold stage_end. destruct (kept (tokenize command)); [done|].
      by destruct (sys_execvp env _).
Qed.

End Stages.

Lemma pipeline_stages_witness :
  ∃ cs,
    children (executePipeline sample_env ["cat"; " wc"] initial_world).2
    = [] ++ cs ∧
    length cs = 2 ∧
    ∀ child, cs !! 1 = Some child →
      child_trace child
      = [EvDup2 3 STDIN_FILENO; EvClose 3; EvClose 4; EvExecvp ["wc"] None].
Proof.
  destruct (pipeline_stages sample_env ["cat"; " wc"] initial_world
              [(3, 4)%N] [100; 101]%positive) as (cs & Hcs & Hlen & Hstage).
  - simpl. lia.
  - reflexivity.
  - reflexivity.
  - exists cs. split; [exact Hcs|]. split; [exact Hlen|].
    intros child Hchild.
    destruct (Hstage 1 " wc" child eq_refl Hchild) as (_ & Htrace & _).
    exact Htrace.
Defined.

(** ** Configuration *)

(** X17: a configuration file that [saveConfig] writes gives the same
    configuration back when [loadConfig] reads it, whatever the
    configuration was before; and a file is written only when preferences
    are to be saved, so no file ever holds [save_preferences=false]. *)
Theorem config_round_trip (cfg cfg0 : Unified.ShellConfig) (opens : bool)
    (content : string) :
  Unified.saveConfig opens cfg = Some content →
  Unified.loadConfig (Some content) cfg0 = cfg ∧
  Unified.savePreferences cfg = true ∧ opens = true.
Proof.
  destruct cfg as [mode auto save]. unfold Unified.saveConfig.
  cbn [Unified.savePreferences Unified.defaultMode
       Unified.autoDetectCommands].
  destruct save; [|discriminate]. destruct opens; [|discriminate].
  cbn [negb]. intros [= <-].
  split; [|done]. destruct mode, auto; vm_compute; reflexivity.
Qed.

Lemma config_round_trip_witness :
  Unified.loadConfig
    (Some ("# Unified Shell Configuration" +:+ NL +:+
           "default_mode=linux" +:+ NL +:+
           "auto_detect=false" +:+ NL +:+
           "save_preferences=true" +:+ NL))
    Unified.default_config
  = {| Unified.defaultMode := LINUX; Unified.autoDetectCommands := false;
       Unified.savePreferences := true |}.
Proof.
  apply (config_round_trip
           {| Unified.defaultMode := LINUX;
              Unified.autoDetectCommands := false;
              Unified.savePreferences := true |} Unified.default_config
           true).
  reflexivity.
Defined.

(** ** The history file of the POSIX shell *)

(** X18: [loadHistory] appends the non-empty lines of the history file,
    in order, until the list holds [MAX_HISTORY] entries; it adds no empty
    entry and never makes a list longer than [MAX_HISTORY], unless it
    already was. *)
Theorem loadHistory_bounded (env : Env) (w : World) :
  let w' := (loadHistory env w).2 in
  history w'
  = history w ++ take (MAX_HISTORY - length (history w))
                   (filter (fun line => line ≠ "") (history_file env)) ∧
  length (history w') ≤ Nat.max (length (history w)) MAX_HISTORY ∧
  (Forall (fun line => line ≠ "") (history w) →
   Forall (fun line => line ≠ "") (history w')).
Proof.
  cbn [loadHistory modify snd set_history history].
  rewrite loadHistory_loop_closed.
  split; [reflexivity|]. split.
  - rewrite length_app, length_take. lia.
  - intros Hh. apply Forall_app. split; [exact Hh|].
    apply Forall_take, Forall_forall. intros line Hin.
    by apply list_elem_of_filter in Hin as [Hne _].
Qed.

(** ** The executor selector *)

Section Selector.
Context (h : Unified.Host).

Lemma registered_orders (executors : list (CommandMode * Unified.Executor)) :
  executors ≡ₚ Unified.registered →
  executors = Unified.registered ∨ executors = reverse Unified.registered.
Proof.
  intros Hp. pose proof (Permutation_length Hp) as Hlen.
  destruct executors as [|x [|y [|z l]]]; try discriminate.
  unfold Unified.registered in *.
  apply Permutation_length_2_inv in Hp as [Hp | Hp].
  - left. congruence.
  - right. injection Hp as -> ->. reflexivity.
Qed.

Lemma disjoint_tables (B L : gset string) (c : string) :
  B ∩ L = ∅ → c ∈ B → c ∉ L.
Proof.
  intros Hbl HB HL. apply (not_elem_of_empty (C := gset string) c).
  rewrite <- Hbl. by apply elem_of_intersection.
Qed.

Lemma builtin_not_linux (command : string) :
  isBuiltinCommand command = true → isLinuxCommand command = false.
Proof.
  unfold isBuiltinCommand, isLinuxCommand. intros Hb.
  apply bool_decide_eq_true_1 in Hb. apply bool_decide_eq_false_2.
  exact (disjoint_tables _ _ _ builtins_linux Hb).
Qed.

(** X19: [executors] is an unordered map, so the order in which the last
    loop of [selectExecutor] meets the two executors is not fixed; the
    executor selected does not depend on it. *)
Theorem selectExecutor_order (executors : list (CommandMode * Unified.Executor))
    (currentMode : CommandMode) (command : string) :
  executors ≡ₚ Unified.registered →
  Unified.selectExecutor h executors currentMode command
  = Unified.selectExecutor h Unified.registered currentMode command.
Proof.
  intros Hp. apply registered_orders in Hp as [-> | ->]; [reflexivity|].
  pose proof (builtin_not_linux command) as Hb. revert Hb.
  destruct currentMode;
    cbv [Unified.selectExecutor detectCommandType Unified.find_executor
         Unified.registered List.find reverse rev_append
         Unified.CommandMode_eqb negb fst snd fmap option_fmap option_map
         Unified.canHandleCommand];
    generalize (isBuiltinCommand command), (isWindowsCommand command),
      (isLinuxCommand command);
    intros b cw cl Hb;
    destruct b; try (specialize (Hb eq_refl); subst cl);
    destruct cw; try destruct cl;
    cbv [andb];
    destruct (Unified.isAvailable h (Unified.WindowsExecutor false)),
      (Unified.isAvailable h Unified.LinuxExecutor);
    reflexivity.
Qed.

(** X20: what [selectExecutor] returns.  The executor of a mode that is
    not auto-detect is returned whenever it is available, whatever the
    command.  An executor that is returned is available, and is the one of
    the current mode or one whose table has the command.  The null pointer
    is returned only when the executor of the current mode is not available
    and no available executor has the command in its table. *)
Theorem selectExecutor_result (currentMode : CommandMode) (command : string) :
  (∀ e, Unified.find_executor Unified.registered currentMode = Some e →
        Unified.isAvailable h e = true →
        Unified.selectExecutor h Unified.registered currentMode command
        = Some e) ∧
  match Unified.selectExecutor h Unified.registered currentMode command with
  | Some e =>
      Unified.isAvailable h e = true ∧
      (Unified.find_executor Unified.registered currentMode = Some e ∨
       Unified.canHandleCommand e command = true)
  | None =>
      (∀ e, Unified.find_executor Unified.registered currentMode = Some e →
            Unified.isAvailable h e = false) ∧
      ∀ entry, entry ∈ Unified.registered →
        Unified.isAvailable h entry.2
        && Unified.canHandleCommand entry.2 command = false
  end.
Proof.
  pose proof (builtin_not_linux command) as Hb. revert Hb.
  destruct currentMode;
    cbv [Unified.selectExecutor detectCommandType Unified.find_executor
         Unified.registered List.find reverse rev_append
         Unified.CommandMode_eqb negb fst snd fmap option_fmap option_map
         Unified.canHandleCommand];
    generalize (isBuiltinCommand command), (isWindowsCommand command),
      (isLinuxCommand command);
    intros b cw cl Hb;
    destruct b; try (specialize (Hb eq_refl); subst cl);
    destruct cw; try destruct cl;
    cbv [andb];
    destruct (Unified.isAvailable h (Unified.WindowsExecutor false)) eqn:Ew,
      (Unified.isAvailable h Unified.LinuxExecutor) eqn:El;
    (split;
     [ intros e [= <-]; congruence
     | repeat split; auto;
       try (intros e [= <-]; assumption);
       try (intros entry Hin;
            apply list_elem_of_In in Hin;
            destruct Hin as [<- | [<- | []]]; cbn [snd];
            rewrite ?Ew, ?El; reflexivity) ]).
Qed.

End Selector.

Lemma selectExecutor_result_witness :
  Unified.selectExecutor
    {| Unified.win32 := false; Unified.popen_output := fun _ => true |}
    Unified.registered WINDOWS "ls"
  = Some (Unified.WindowsExecutor false).
Proof.
  apply (proj1 (selectExecutor_result
                  {| Unified.win32 := false;
                     Unified.popen_output := fun _ => true |}
                  WINDOWS "ls")).
  - reflexivity.
  - reflexivity.
Defined.

Lemma selectExecutor_order_witness :
  Unified.selectExecutor
    {| Unified.win32 := false; Unified.popen_output := fun _ => true |}
    (reverse Unified.registered) AUTO_DETECT "sort"
  = Unified.selectExecutor
      {| Unified.win32 := false; Unified.popen_output := fun _ => true |}
      Unified.registered AUTO_DETECT "sort".
Proof.
  apply (selectExecutor_order
           {| Unified.win32 := false; Unified.popen_output := fun _ => true |}
           (reverse Unified.registered) AUTO_DETECT "sort").
  apply Permutation_swap.
Defined.

(** ** The commands of the unified shell *)

Lemma isBuiltinCommand_names (command : string) :
  isBuiltinCommand command
  = (String.eqb command "help" || String.eqb command "mode"
     || String.eqb command "status" || String.eqb command "config"
     || String.eqb command "history" || String.eqb command "clear"
     || String.eqb command "cls" || String.eqb command "exit"
     || String.eqb command "quit").
Proof.
  unfold isBuiltinCommand, builtins.
  apply eq_true_iff_eq. rewrite bool_decide_eq_true.
  rewrite !orb_true_iff, !String.eqb_eq. set_unfold. tauto.
Qed.

Lemma handleBuiltins_names (a0 : string) (rest : list string)
    (s : Unified.State) :
  (Unified.handleBuiltins (a0 :: rest) s).1
  = (String.eqb a0 "help" || String.eqb a0 "mode"
     || String.eqb a0 "status" || String.eqb a0 "config"
     || String.eqb a0 "history" || String.eqb a0 "clear"
     || String.eqb a0 "cls") ∧
  (a0 ≠ "mode" → a0 ≠ "config" → (Unified.handleBuiltins (a0 :: rest) s).2 = s) ∧
  (a0 ≠ "mode" →
   Unified.currentMode (Unified.handleBuiltins (a0 :: rest) s).2
   = Unified.currentMode s) ∧
  (a0 ≠ "config" →
   Unified.config (Unified.handleBuiltins (a0 :: rest) s).2
   = Unified.config s ∧
   Unified.history (Unified.handleBuiltins (a0 :: rest) s).2
   = Unified.history s).
Proof.
  unfold Unified.handleBuiltins.
  destruct (String.eqb_spec a0 "help") as [-> | _]; [done|].
  destruct (String.eqb_spec a0 "mode") as [-> | _].
  { split; [|split; [done|split; [done|]]].
    - destruct rest as [|mode rest].
      + by destruct (Unified.promptForMode s).
      + by destruct (String.eqb mode "windows" || String.eqb mode "win"),
          (String.eqb mode "linux" || String.eqb mode "lnx"),
          (String.eqb mode "auto").
    - intros _. destruct rest as [|mode rest].
      + unfold Unified.promptForMode, Unified.getline.
        by destruct (Unified.cin s).
      + by destruct (String.eqb mode "windows" || String.eqb mode "win"),
          (String.eqb mode "linux" || String.eqb mode "lnx"),
          (String.eqb mode "auto"). }
  destruct (String.eqb_spec a0 "status") as [-> | _]; [done|].
  destruct (String.eqb_spec a0 "config") as [-> | _].
  { split; [done|]. split; [done|]. split; [|done]. intros _.
    unfold Unified.configureShell, Unified.getline.
    destruct (Unified.cin s) as [|[|c choice] lines]; [done..|].
    cbn [Unified.cin Unified.currentMode].
    unfold Unified.promptForMode, Unified.getline. cbn [Unified.cin].
    destruct c as [[] [] [] [] [] [] [] []]; try done.
    by destruct lines. }
  destruct (String.eqb_spec a0 "history") as [-> | _]; [done|].
  destruct (String.eqb a0 "clear" || String.eqb a0 "cls") eqn:Hclear.
  - cbn [fst snd orb]. by rewrite Hclear.
  - cbn [fst snd orb]. by rewrite Hclear.
Qed.

(** X21: the commands [executeCommand] serves itself, without asking for
    an executor, are the ones the classifier calls built-in; the other
    commands go to [selectExecutor].  Only [mode] changes the current mode,
    and only [config] changes the configuration and the history list. *)
Theorem executeCommand_builtins (h : Unified.Host)
    (executors : list (CommandMode * Unified.Executor)) (input : string)
    (s : Unified.State) (a0 : string) (rest : list string) :
  Unified.tokenize input = a0 :: rest →
  let end_ := Unified.executeCommand h executors input s in
  (isBuiltinCommand a0 = true
   ↔ end_.1 = Unified.Handled ∨ end_.1 = Unified.Quit) ∧
  (a0 ≠ "mode" → Unified.currentMode end_.2 = Unified.currentMode s) ∧
  (a0 ≠ "config" →
   Unified.config end_.2 = Unified.config s ∧
   Unified.history end_.2 = Unified.history s).
Proof.
  intros Htok. unfold Unified.executeCommand. rewrite Htok.
  destruct (handleBuiltins_names a0 rest s) as (Hb & _ & Hmode & Hconfig).
  destruct (Unified.handleBuiltins (a0 :: rest) s) as [handled s'].
  cbn [fst snd] in *. rewrite isBuiltinCommand_names, <- Hb.
  destruct handled; cbn [orb].
  { split; [split; [by left | done] | by split]. }
  destruct (String.eqb a0 "exit" || String.eqb a0 "quit"); cbn [fst snd].
  { split; [split; [by right | done] | by split]. }
  destruct (Unified.selectExecutor h executors (Unified.currentMode s') a0);
    [destruct (bool_decide _)|]; cbn [fst snd];
    (split; [|by split]); (split; [done|]); by intros [|].
Qed.

Lemma executeCommand_builtins_witness :
  (Unified.executeCommand
     {| Unified.win32 := false; Unified.popen_output := fun _ => true |}
     Unified.registered "quit"
     {| Unified.currentMode := AUTO_DETECT;
        Unified.config := Unified.default_config;
        Unified.history := []; Unified.cin := [] |}).1 = Unified.Quit.
Proof.
  pose proof (executeCommand_builtins
     {| Unified.win32 := false; Unified.popen_output := fun _ => true |}
     Unified.registered "quit"
     {| Unified.currentMode := AUTO_DETECT;
        Unified.config := Unified.default_config;
        Unified.history := []; Unified.cin := [] |} "quit" [] eq_refl)
    as [[Hb _] _].
  destruct Hb as [Hb | Hb]; [vm_compute; reflexivity | | exact Hb].
  vm_compute in Hb. discriminate Hb.
Defined.

Lemma handleBuiltins_other_command (a0 : string) (rest : list string)
    (s : Unified.State) :
  isBuiltinCommand a0 = false →
  Unified.handleBuiltins (a0 :: rest) s = (false, s) ∧
  String.eqb a0 "exit" || String.eqb a0 "quit" = false.
Proof.
  rewrite isBuiltinCommand_names. intros Hb.
  destruct (handleBuiltins_names a0 rest s) as (Hh & Hs & _).
  apply orb_false_elim in Hb as [Hb Hquit].
  apply orb_false_elim in Hb as [Hb Hexit].
  rewrite Hb in Hh. rewrite Hexit, Hquit. split; [|done].
  destruct (Unified.handleBuiltins (a0 :: rest) s) as [handled s'].
  cbn [fst snd] in *. subst handled. f_equal. apply Hs.
  - intros ->. discriminate Hb.
  - intros ->. discriminate Hb.
Qed.

Lemma last_pop_last (args : list string) (x : string) :
  last args = Some x → Unified.pop_last args ++ [x] = args.
Proof.
  intros Hlast. unfold Unified.pop_last.
  destruct args as [|a args _] using rev_ind; [done|].
  rewrite last_snoc in Hlast. injection Hlast as ->.
  rewrite length_app. cbn [length].
  replace (length args + 1 - 1) with (length args) by lia.
  by rewrite take_app_length.
Qed.

(** X22: a spelled-out mode is obeyed.  After [mode windows] or
    [mode linux] (or [win], [lnx]) every command that is not built-in is
    given to the executor of that mode when it is available, whatever table
    the command is in; the line is passed on word by word, without a last
    [&], which asks for the background.  [mode] does not touch the
    configuration, so the choice is not saved. *)
Theorem mode_pins_executor (h : Unified.Host) (mode : CommandMode)
    (word : string) (e : Unified.Executor) (input : string)
    (s : Unified.State) (a0 : string) (rest : list string) :
  match mode with
  | WINDOWS => word = "windows" ∨ word = "win"
  | LINUX => word = "linux" ∨ word = "lnx"
  | AUTO_DETECT => False
  end →
  Unified.find_executor Unified.registered mode = Some e →
  Unified.isAvailable h e = true →
  Unified.tokenize input = a0 :: rest →
  isBuiltinCommand a0 = false →
  let s1 :=
    (Unified.executeCommand h Unified.registered ("mode " +:+ word) s).2 in
  s1 = Unified.setMode mode s ∧
  Unified.config s1 = Unified.config s ∧
  ∃ args background,
    Unified.executeCommand h Unified.registered input s1
    = (Unified.Execute e args background, s1) ∧
    args ++ (if background then ["&"] else []) = a0 :: rest ∧
    (background = false → last args ≠ Some "&").
Proof.
  intros Hword Hfind Havail Htok Hb s1.
  assert (Hs1 : s1 = Unified.setMode mode s).
  { unfold s1.
    destruct mode; [| |done]; destruct Hword as [-> | ->]; reflexivity. }
  split; [exact Hs1|]. split; [by rewrite Hs1|].
  unfold Unified.executeCommand. rewrite Htok.
  destruct (handleBuiltins_other_command a0 rest s1 Hb) as [-> ->].
  assert (Hselect : Unified.selectExecutor h Unified.registered
                      (Unified.currentMode s1) a0 = Some e).
  { rewrite Hs1. cbn [Unified.setMode Unified.currentMode].
    unfold Unified.selectExecutor. rewrite Hfind, Havail.
    by destruct mode. }
  rewrite Hselect.
  destruct (bool_decide (last (a0 :: rest) = Some "&")) eqn:Hlast.
  - apply bool_decide_eq_true in Hlast.
    eexists _, true. split; [reflexivity|]. split; [|done].
    by apply last_pop_last.
  - apply bool_decide_eq_false in Hlast.
    eexists _, false. split; [reflexivity|]. split; [|done].
    by rewrite app_nil_r.
Qed.

Lemma mode_pins_executor_witness :
  ∃ s1 args background,
    Unified.executeCommand
      {| Unified.win32 := false; Unified.popen_output := fun _ => true |}
      Unified.registered "dir /w &" s1
    = (Unified.Execute Unified.LinuxExecutor args background, s1) ∧
    args ++ (if background then ["&"] else []) = ["dir"; "/w"; "&"].
Proof.
  destruct (mode_pins_executor
              {| Unified.win32 := false;
                 Unified.popen_output := fun _ => true |}
              LINUX "linux" Unified.LinuxExecutor "dir /w &"
              {| Unified.currentMode := AUTO_DETECT;
                 Unified.config := Unified.default_config;
                 Unified.history := []; Unified.cin := [] |}
              "dir" ["/w"; "&"])
    as (_ & _ & args & background & Hrun & Hargs & _).
  - left. reflexivity.
  - reflexivity.
  - reflexivity.
  - reflexivity.
  - vm_compute. reflexivity.
  - eexists _, args, background. split; [exact Hrun | exact Hargs].
Defined.

(** ** What is launched *)






(** ** The history of the unified shell *)

Lemma addToHistory_drop (history : list string) (command : string) :
  length history ≤ Unified.MAX_HISTORY →
  Unified.addToHistory history command
  = drop (length (history ++ [command]) - Unified.MAX_HISTORY)
      (history ++ [command]).
Proof.
  intros Hlen. unfold Unified.addToHistory.
  rewrite length_app. cbn [length].
  destruct (Nat.ltb_spec Unified.MAX_HISTORY (length history + 1)).
  - by replace (length history + 1 - Unified.MAX_HISTORY) with 1 by lia.
  - by replace (length history + 1 - Unified.MAX_HISTORY) with 0 by lia.
Qed.

(** X24: the history list of the unified shell is a window on the
    commands: after any number of calls of [addToHistory] it holds the last
    [MAX_HISTORY] of the entries it had and the commands added, in order. *)
Theorem addToHistory_window (commands history : list string) :
  length history ≤ Unified.MAX_HISTORY →
  foldl Unified.addToHistory history commands
  = drop (length (history ++ commands) - Unified.MAX_HISTORY)
      (history ++ commands) ∧
  length (foldl Unified.addToHistory history commands)
  = Nat.min (length history + length commands) Unified.MAX_HISTORY.
Proof.
  intros Hlen.
  assert (Hfold :
    foldl Unified.addToHistory history commands
    = drop (length (history ++ commands) - Unified.MAX_HISTORY)
        (history ++ commands)).
  { revert history Hlen.
    induction commands as [|command commands IH]; intros history Hlen.
    - cbn [foldl]. rewrite app_nil_r.
      by replace (length history - Unified.MAX_HISTORY) with 0 by lia.
    - cbn [foldl]. rewrite IH.
      + rewrite (addToHistory_drop history command Hlen).
        set (hc := history ++ [command]).
        assert (Hhc : length hc = length history + 1)
          by (unfold hc; rewrite length_app; simpl; lia).
        replace (history ++ command :: commands) with (hc ++ commands)
          by (unfold hc; by rewrite <- app_assoc).
        set (d := length hc - Unified.MAX_HISTORY).
        assert (Hd : d ≤ length hc) by lia.
        rewrite <- (drop_app_le hc commands d Hd).
        rewrite drop_drop. f_equal.
        rewrite length_drop, length_app. unfold d. lia.
      + rewrite (addToHistory_drop history command Hlen).
        rewrite length_drop, length_app. cbn [length]. lia. }
  split; [exact Hfold|].
  rewrite Hfold, length_drop, length_app. lia.
Qed.

Lemma addToHistory_window_witness :
  foldl Unified.addToHistory ["ls"] ["dir"; "ls"] = ["ls"; "dir"; "ls"].
Proof.
  destruct (addToHistory_window ["dir"; "ls"] ["ls"]) as [Hfold _].
  - unfold Unified.MAX_HISTORY. simpl. lia.
  - exact Hfold.
Defined.

(** ** The first start *)

Lemma loadConfig_saveConfig (cfg cfg0 : Unified.ShellConfig) :
  Unified.savePreferences cfg = true →
  ∃ content,
    Unified.saveConfig true cfg = Some content ∧
    Unified.loadConfig (Some content) cfg0 = cfg.
Proof.
  destruct cfg as [mode auto save]. cbn [Unified.savePreferences].
  intros ->. destruct mode, auto; eexists; (split; [reflexivity|]);
    vm_compute; reflexivity.
Qed.

(** X25: the answer to the prompt of the first start is remembered.
    When the shell starts with auto-detect as its default and preferences
    are saved, [initialize] asks for a mode, makes the answer the current
    mode and writes it to the configuration file.  A shell that then starts
    from that file has the chosen mode from the beginning and does not
    ask, unless the answer was auto-detect, in which case it asks again at
    every start. *)
Theorem first_start_choice (file histfile : option string)
    (choice : string) (rest : list string) :
  let cfg0 := Unified.loadConfig file Unified.default_config in
  Unified.defaultMode cfg0 = AUTO_DETECT →
  Unified.savePreferences cfg0 = true →
  let start :=
    Unified.initialize histfile true
      (Unified.UnifiedShell file (choice :: rest)) in
  let mode :=
    match choice with
    | String "1"%char _ => WINDOWS
    | String "2"%char _ => LINUX
    | _ => AUTO_DETECT
    end in
  Unified.currentMode start.1 = mode ∧
  Unified.cin start.1 = rest ∧
  ∃ content,
    start.2 = Some content ∧
    ∀ (input : list string) (histfile' : option string) (opens : bool),
      let next :=
        Unified.initialize histfile' opens
          (Unified.UnifiedShell (Some content) input) in
      match mode with
      | AUTO_DETECT => Unified.cin next.1 = tail input
      | _ =>
          Unified.currentMode next.1 = mode ∧ Unified.cin next.1 = input ∧
          next.2 = None
      end.
Proof.
  intros cfg0 Hdef Hsave start mode.
  set (cfg1 := {| Unified.defaultMode := mode;
                  Unified.autoDetectCommands :=
                    Unified.autoDetectCommands cfg0;
                  Unified.savePreferences := true |}).
  assert (Hstart :
    start = ({| Unified.currentMode := mode; Unified.config := cfg1;
                Unified.history := Unified.loadHistory histfile [];
                Unified.cin := rest |},
             Unified.saveConfig true cfg1)).
  { unfold start, Unified.initialize, Unified.UnifiedShell. fold cfg0.
    cbn [Unified.currentMode Unified.config Unified.history Unified.cin].
    rewrite Hdef. cbn [Unified.CommandMode_eqb].
    unfold Unified.promptForMode, Unified.getline.
    cbn [Unified.currentMode Unified.config Unified.history Unified.cin].
    fold mode. by rewrite Hsave. }
  rewrite Hstart. cbn [fst snd Unified.currentMode Unified.cin].
  split; [done|]. split; [done|].
  destruct (loadConfig_saveConfig cfg1 Unified.default_config eq_refl)
    as (content & Hwritten & Hread).
  exists content. split; [exact Hwritten|].
  intros input histfile' opens.
  unfold Unified.initialize, Unified.UnifiedShell. rewrite Hread.
  cbn [Unified.currentMode Unified.config Unified.history Unified.cin
       Unified.defaultMode cfg1].
  destruct mode; cbn [Unified.CommandMode_eqb fst snd Unified.currentMode
                      Unified.cin]; [done..|].
  unfold Unified.promptForMode, Unified.getline.
  cbn [Unified.cin]. by destruct input.
Qed.

Lemma first_start_choice_witness :
  Unified.currentMode
    (Unified.initialize None true (Unified.UnifiedShell None ["2"])).1
  = LINUX.
Proof.
  apply (first_start_choice None None "2" []); reflexivity.
Defined.
